(** * Query compilation layer of the PostgreSQL adapter

    A shallow embedding of [lib/util.js] and of the parts of
    [lib/adapter.js] that call into it, with the properties the adapter's
    specification states about them.

    Conventions of the embedding.
    - A JavaScript string is a [string]: a sequence of code units from the
      one-byte range.  The functions below only compare code units with
      ASCII characters, count them, or copy them.
    - A JavaScript number is an integer [Z]; [JSON.parse] yields only
      those a double holds exactly.
    - An object used as a record of named properties is an association
      list in enumeration order.
    - A call on the knex builders is recorded as data (the column, the
      statement, the query that was asked for); the database is not
      modelled.
    - A function that can raise returns a [result]. *)

From Stdlib Require Import String Ascii List ZArith Lia Bool DecimalString.
Import ListNotations.

Local Open Scope list_scope.
Local Open Scope string_scope.
Local Open Scope Z_scope.

(** ** Outcomes *)

Inductive error : Type :=
| TypeError
| SyntaxError.

(** Where a run leaves the embedding. *)
Inductive boundary : Type :=
| OutOfFuel      (* the parser's fuel ran out *)
| NotLatin1      (* a code unit above U+00FF *)
| NotAnInteger   (* a number that is no integer a double holds exactly *)
| NotAString     (* a key that is not a string where a name is expected *)
| NotARow        (* an array where a row object is expected *)
| NotFollowed.   (* a member of [Util] whose body is not followed *)

(** [Beyond] is never read as a JavaScript exception. *)
Inductive result (A : Type) : Type :=
| Ok (a : A)
| Throw (e : error)
| Beyond (why : boundary).

Arguments Ok {A} a.
Arguments Throw {A} e.
Arguments Beyond {A} why.

Definition bind {A B : Type} (m : result A) (k : A -> result B) : result B :=
  match m with
  | Ok a => k a
  | Throw e => Throw e
  | Beyond why => Beyond why
  end.

Notation "x <- m ;; k" := (bind m (fun x => k))
  (at level 61, m at next level, right associativity).
Notation "' p <- m ;; k" := (bind m (fun x => let p := x in k))
  (at level 61, p pattern, m at next level, right associativity).

Fixpoint mapM {A B : Type} (f : A -> result B) (l : list A) : result (list B) :=
  match l with
  | [] => Ok []
  | a :: l' => b <- f a ;; bs <- mapM f l' ;; Ok (b :: bs)
  end.

(** ** JavaScript values *)

#[warnings="-register-all"]
Inductive jsval : Type :=
| VUndefined
| VNull
| VBool (b : bool)
| VNum (n : Z)
| VStr (s : string)
| VArr (l : list jsval)
| VObj (o : list (string * jsval)).

(** [!value] is [negb (truthy value)]. *)
Definition truthy (v : jsval) : bool :=
  match v with
  | VUndefined | VNull => false
  | VBool b => b
  | VNum n => negb (n =? 0)
  | VStr s => negb (s =? "")%string
  | VArr _ | VObj _ => true
  end.

(** [a || b] *)
Definition jsOr (a b : jsval) : jsval := if truthy a then a else b.

(** [_.isString], [_.isObject] and [_.isArray] *)
Definition isString (v : jsval) : bool :=
  match v with VStr _ => true | _ => false end.

Definition isObject (v : jsval) : bool :=
  match v with VArr _ | VObj _ => true | _ => false end.

Definition isArray (v : jsval) : bool :=
  match v with VArr _ => true | _ => false end.

Fixpoint assoc (k : string) (o : list (string * jsval)) : option jsval :=
  match o with
  | [] => None
  | (k', v) :: o' => if (k =? k')%string then Some v else assoc k o'
  end.

(** [v.k] and [v[k]] for a property name [k] that is not an array index.
    [field] is the read where the receiver is known not to be [undefined]
    or [null], or where lodash guards it ([_.get], [_.property]);
    [getProp] is the bare read, which raises on those two. *)
Definition field (v : jsval) (k : string) : jsval :=
  match v with
  | VObj o => match assoc k o with Some x => x | None => VUndefined end
  | VArr l =>
      if (k =? "length")%string then VNum (Z.of_nat (List.length l))
      else VUndefined
  | VStr s =>
      if (k =? "length")%string then VNum (Z.of_nat (String.length s))
      else VUndefined
  | _ => VUndefined
  end.

Definition getProp (v : jsval) (k : string) : result jsval :=
  match v with
  | VUndefined | VNull => Throw TypeError
  | _ => Ok (field v k)
  end.

(** An optional number, for [limit] and [skip]: [x || d]. *)
Definition orDefault (x : option Z) (d : Z) : Z :=
  match x with
  | Some n => if n =? 0 then d else n
  | None => d
  end.

(** ** Characters *)

Definition isDigit (c : ascii) : bool :=
  let n := N_of_ascii c in ((48 <=? n) && (n <=? 57))%N.

Definition headIsDigit (s : string) : bool :=
  match s with
  | String c _ => isDigit c
  | EmptyString => false
  end.

Definition isWhitespace (c : ascii) : bool :=
  let n := N_of_ascii c in ((n =? 32) || (n =? 9) || (n =? 10) || (n =? 13))%N.

Fixpoint skipWhitespace (s : string) : string :=
  match s with
  | String c r => if isWhitespace c then skipWhitespace r else s
  | EmptyString => s
  end.

(** [String.prototype.toLowerCase] on the one-byte range: A-Z, and the
    Latin-1 capitals U+00C0..U+00DE without U+00D7. *)
Definition lowerChar (c : ascii) : ascii :=
  let n := N_of_ascii c in
  if (((65 <=? n) && (n <=? 90)) ||
      ((192 <=? n) && (n <=? 222) && negb (n =? 215)))%N
  then ascii_of_N (n + 32) else c.

Fixpoint toLowerCase (s : string) : string :=
  match s with
  | EmptyString => EmptyString
  | String c r => String (lowerChar c) (toLowerCase r)
  end.

(** Decimal rendering of an integer inside a template literal. *)
Definition showZ (n : Z) : string := NilZero.string_of_int (Z.to_int n).

(** [array.join(sep)] on strings *)
Fixpoint joinWith (sep : string) (l : list string) : string :=
  match l with
  | [] => ""
  | [x] => x
  | x :: l' => x ++ sep ++ joinWith sep l'
  end.

(** ** [JSON.parse]

    The runtime's parser, on the grammar of ECMA-404.  A number literal
    with a fraction or an exponent, or with more than 2^53 for its integer
    part, and a [\u] escape above U+00FF, denote values the embedding does
    not hold: there the parser answers [Beyond].  The fuel [JSON_parse] gives is enough for every text
    ([JSON_parse_fuel] below). *)

Definition hexDigit (c : ascii) : option N :=
  let n := N_of_ascii c in
  if ((48 <=? n) && (n <=? 57))%N then Some (n - 48)%N
  else if ((65 <=? n) && (n <=? 70))%N then Some (n - 55)%N
  else if ((97 <=? n) && (n <=? 102))%N then Some (n - 87)%N
  else None.

Definition hex4 (a b c d : ascii) : option N :=
  match hexDigit a, hexDigit b, hexDigit c, hexDigit d with
  | Some x, Some y, Some z, Some w => Some (((x * 16 + y) * 16 + z) * 16 + w)%N
  | _, _, _, _ => None
  end.

Definition snoc (s : string) (c : ascii) : string := s ++ String c "".

(** The characters after an opening quote, up to the closing one. *)
Fixpoint parseChars (acc : string) (s : string) : result (string * string) :=
  match s with
  | EmptyString => Throw SyntaxError
  | String c r =>
      if (N_of_ascii c =? 34)%N then Ok (acc, r)
      else if (N_of_ascii c <? 32)%N then Throw SyntaxError
      else if (N_of_ascii c =? 92)%N then
        match r with
        | String e r' =>
            let n := N_of_ascii e in
            if (n =? 34)%N then parseChars (snoc acc e) r'
            else if (n =? 92)%N then parseChars (snoc acc e) r'
            else if (n =? 47)%N then parseChars (snoc acc e) r'
            else if (n =? 98)%N then parseChars (snoc acc (ascii_of_N 8)) r'
            else if (n =? 102)%N then parseChars (snoc acc (ascii_of_N 12)) r'
            else if (n =? 110)%N then parseChars (snoc acc (ascii_of_N 10)) r'
            else if (n =? 114)%N then parseChars (snoc acc (ascii_of_N 13)) r'
            else if (n =? 116)%N then parseChars (snoc acc (ascii_of_N 9)) r'
            else if (n =? 117)%N then
              match r' with
              | String h1 (String h2 (String h3 (String h4 r''))) =>
                  match hex4 h1 h2 h3 h4 with
                  | Some u =>
                      if (u <? 256)%N
                      then parseChars (snoc acc (ascii_of_N u)) r''
                      else Beyond NotLatin1
                  | None => Throw SyntaxError
                  end
              | _ => Throw SyntaxError
              end
            else Throw SyntaxError
        | EmptyString => Throw SyntaxError
        end
      else parseChars (snoc acc c) r
  end.

Fixpoint takeDigits (acc : Z) (s : string) : Z * string :=
  match s with
  | String c r =>
      if isDigit c
      then takeDigits (acc * 10 + Z.of_N (N_of_ascii c - 48)) r
      else (acc, s)
  | EmptyString => (acc, s)
  end.

(** What follows the integer part of a number literal. *)
Definition parseFraction (s : string) : result unit :=
  match s with
  | String c r =>
      if (N_of_ascii c =? 46)%N
      then if headIsDigit r then Beyond NotAnInteger else Throw SyntaxError
      else if ((N_of_ascii c =? 101) || (N_of_ascii c =? 69))%N
      then
        match r with
        | String g r' =>
            if ((N_of_ascii g =? 43) || (N_of_ascii g =? 45))%N
            then if headIsDigit r' then Beyond NotAnInteger else Throw SyntaxError
            else if isDigit g then Beyond NotAnInteger else Throw SyntaxError
        | EmptyString => Throw SyntaxError
        end
      else Ok tt
  | EmptyString => Ok tt
  end.

(** An optional minus sign, then a single zero or a run of digits that
    does not start with zero, then the check of what follows. *)
Definition parseNumber (s : string) : result (Z * string) :=
  let '(neg, t) :=
    match s with
    | String c r => if (N_of_ascii c =? 45)%N then (true, r) else (false, s)
    | EmptyString => (false, s)
    end in
  match t with
  | String d r =>
      if isDigit d then
        let '(n, rest) :=
          if (N_of_ascii d =? 48)%N then (0, r) else takeDigits 0 t in
        u <- parseFraction rest ;;
        if n <=? 9007199254740992
        then Ok (if neg then - n else n, rest)
        else Beyond NotAnInteger
      else Throw SyntaxError
  | EmptyString => Throw SyntaxError
  end.

Fixpoint dropPrefix (p s : string) : option string :=
  match p, s with
  | EmptyString, _ => Some s
  | String a p', String b s' => if (a =? b)%char then dropPrefix p' s' else None
  | String _ _, EmptyString => None
  end.

(** A repeated key keeps its place and takes the later value. *)
Fixpoint setMember (k : string) (v : jsval) (o : list (string * jsval))
  : list (string * jsval) :=
  match o with
  | [] => [(k, v)]
  | (k', v') :: o' =>
      if (k =? k')%string then (k', v) :: o' else (k', v') :: setMember k v o'
  end.

Fixpoint parseValue (fuel : nat) (s : string) : result (jsval * string) :=
  match fuel with
  | O => Beyond OutOfFuel
  | S f =>
      match skipWhitespace s with
      | EmptyString => Throw SyntaxError
      | String c r as t =>
          let n := N_of_ascii c in
          if (n =? 91)%N then
            match skipWhitespace r with
            | String c' r' =>
                if (N_of_ascii c' =? 93)%N then Ok (VArr [], r')
                else '(l, rest) <- parseElements f r [] ;; Ok (VArr l, rest)
            | EmptyString => Throw SyntaxError
            end
          else if (n =? 123)%N then
            match skipWhitespace r with
            | String c' r' =>
                if (N_of_ascii c' =? 125)%N then Ok (VObj [], r')
                else '(o, rest) <- parseMembers f r [] ;; Ok (VObj o, rest)
            | EmptyString => Throw SyntaxError
            end
          else if (n =? 34)%N then
            '(str, rest) <- parseChars "" r ;; Ok (VStr str, rest)
          else if (n =? 116)%N then
            match dropPrefix "true" t with
            | Some rest => Ok (VBool true, rest)
            | None => Throw SyntaxError
            end
          else if (n =? 102)%N then
            match dropPrefix "false" t with
            | Some rest => Ok (VBool false, rest)
            | None => Throw SyntaxError
            end
          else if (n =? 110)%N then
            match dropPrefix "null" t with
            | Some rest => Ok (VNull, rest)
            | None => Throw SyntaxError
            end
          else '(z, rest) <- parseNumber t ;; Ok (VNum z, rest)
      end
  end

with parseElements (fuel : nat) (s : string) (acc : list jsval)
  : result (list jsval * string) :=
  match fuel with
  | O => Beyond OutOfFuel
  | S f =>
      '(v, rest) <- parseValue f s ;;
      match skipWhitespace rest with
      | String c r =>
          if (N_of_ascii c =? 44)%N then parseElements f r (acc ++ [v])%list
          else if (N_of_ascii c =? 93)%N then Ok ((acc ++ [v])%list, r)
          else Throw SyntaxError
      | EmptyString => Throw SyntaxError
      end
  end

with parseMembers (fuel : nat) (s : string) (acc : list (string * jsval))
  : result (list (string * jsval) * string) :=
  match fuel with
  | O => Beyond OutOfFuel
  | S f =>
      match skipWhitespace s with
      | String q r =>
          if (N_of_ascii q =? 34)%N then
            '(k, rest) <- parseChars "" r ;;
            match skipWhitespace rest with
            | String c r' =>
                if (N_of_ascii c =? 58)%N then
                  '(v, rest') <- parseValue f r' ;;
                  match skipWhitespace rest' with
                  | String d r'' =>
                      if (N_of_ascii d =? 44)%N
                      then parseMembers f r'' (setMember k v acc)
                      else if (N_of_ascii d =? 125)%N
                      then Ok (setMember k v acc, r'')
                      else Throw SyntaxError
                  | EmptyString => Throw SyntaxError
                  end
                else Throw SyntaxError
            | EmptyString => Throw SyntaxError
            end
          else Throw SyntaxError
      | EmptyString => Throw SyntaxError
      end
  end.

Definition JSON_parse (s : string) : result jsval :=
  '(v, rest) <- parseValue (2 * String.length s + 2) s ;;
  match skipWhitespace rest with
  | EmptyString => Ok v
  | String _ _ => Throw SyntaxError
  end.

(** A parse that is not out of fuel and, when it succeeds, leaves less
    than [s] to read. *)
Definition consumes {A : Type} (r : result (A * string)) (s : string) : Prop :=
  match r with
  | Ok (_, rest) => (String.length rest < String.length s)%nat
  | Beyond OutOfFuel => False
  | _ => True
  end.

(** ** [lib/util.js]: statements handed to [knex.raw] *)

(** The scanner behind [sql.replace(/\$\d+/g, '?')].  [inMatch] says that
    the characters just read were a dollar sign and digits, so that further
    digits still belong to the same match. *)
Fixpoint replaceDollarDigits (inMatch : bool) (sql : string) : string :=
  match sql with
  | EmptyString => EmptyString
  | String c r =>
      if inMatch && isDigit c then replaceDollarDigits true r
      else if (N_of_ascii c =? 36)%N && headIsDigit r
      then String "?" (replaceDollarDigits true r)
      else String c (replaceDollarDigits false r)
  end.

Definition toKnexRawQuery (sql : string) : string :=
  replaceDollarDigits false sql.

Definition startsWithBracket (s : string) : bool :=
  match s with
  | String c _ => (N_of_ascii c =? 91)%N
  | EmptyString => false
  end.

(** The callback of [_.map] in [castValues]. *)
Definition castValue (value : jsval) : result jsval :=
  match value with
  | VStr s =>
      if startsWithBracket s then
        arr <- JSON_parse s ;;
        if isArray arr then Ok arr else Ok value
      else Ok value
  | _ => Ok value
  end.

Definition castValues (values : list jsval) : result (list jsval) :=
  mapM castValue values.

(** [knex.raw(sql, bindings)] *)
Record knexRaw : Type := mkRaw { rawSql : string; rawBindings : list jsval }.

(** [Adapter._query], up to the statement it hands to the driver. *)
Definition _query (query : string) (values : list jsval) : result knexRaw :=
  let sql := toKnexRawQuery query in
  bindings <- castValues values ;;
  Ok (mkRaw sql bindings).

(** Occurrences of a character, and positions where [/\$\d+/] matches:
    a dollar sign with a digit right after it. *)
Fixpoint countChar (a : ascii) (s : string) : nat :=
  match s with
  | EmptyString => O
  | String c r => ((if (c =? a)%char then 1 else 0) + countChar a r)%nat
  end.

Definition placeholders (sql : string) : nat := countChar "?" sql.

Fixpoint dollarTokens (s : string) : nat :=
  match s with
  | EmptyString => O
  | String c r =>
      ((if (N_of_ascii c =? 36)%N && headIsDigit r then 1 else 0)
       + dollarTokens r)%nat
  end.

(** ** [lib/util.js]: columns *)

(** A call on the knex table builder, with its arguments as passed. *)
Inductive tableCall : Type :=
| TText (name textType : jsval)
| TString (name length : jsval)
| TSpecificType (name : jsval) (sqlType : string)
| TBoolean (name : jsval)
| TInteger (name : jsval)
| TBigInteger (name : jsval)
| TFloat (name precision scale : jsval)
| TDecimal (name precision scale : jsval)
| TTime (name : jsval)
| TDate (name : jsval)
| TTimestamp (name standard : jsval)
| TJson (name : jsval) (jsonb : bool)
| TBinary (name : jsval)
| TUuid (name : jsval)
| TEnu (name values : jsval)
| TComment (text : jsval).

(** A call on the column builder a table call returned. *)
Inductive modifier : Type :=
| MIndex (indexName indexType : jsval)
| MUnique
| MNotNullable
| MDefaultTo (value : jsval).

(** A column builder is the list of calls made on it so far;
    [table.comment] returns no builder. *)
Definition column : Type := option (list modifier).

(** The arguments of one [console.error] call. *)
Definition diagnostic : Type := list jsval.

Record knexColumn : Type := mkColumn {
  statement : tableCall;
  builder : column;
  logged : list diagnostic
}.

Definition made (c : tableCall) : knexColumn := mkColumn c (Some []) [].

Definition toKnexColumn (_name : jsval) (attrDefinition : jsval)
  : result knexColumn :=
  let attr := if isObject attrDefinition then attrDefinition
              else VObj [("type", attrDefinition)] in
  let type := if truthy (field attr "autoIncrement") then VStr "serial"
              else field attr "type" in
  let name := jsOr (field attr "columnName") _name in
  match type with
  | VStr t =>
      let tag := toLowerCase t in
      if (tag =? "character varying")%string || (tag =? "text")%string
         || (tag =? "mediumtext")%string || (tag =? "longtext")%string
      then Ok (made (TText name type))
      else if (tag =? "string")%string
      then Ok (made (TString name (field attr "length")))
      else if (tag =? "serial")%string || (tag =? "smallserial")%string
      then Ok (made (TSpecificType name "serial"))
      else if (tag =? "bigserial")%string
      then Ok (made (TSpecificType name "bigserial"))
      else if (tag =? "boolean")%string
      then Ok (made (TBoolean name))
      else if (tag =? "int")%string || (tag =? "integer")%string
              || (tag =? "smallint")%string
      then Ok (made (TInteger name))
      else if (tag =? "bigint")%string || (tag =? "biginteger")%string
      then Ok (made (TBigInteger name))
      else if (tag =? "real")%string || (tag =? "float")%string
      then Ok (made (TFloat name (field attr "precision") (field attr "scale")))
      else if (tag =? "double")%string
      then Ok (made (TFloat name (VNum 15) (field attr "scale")))
      else if (tag =? "decimal")%string
      then Ok (made (TDecimal name (field attr "precision") (field attr "scale")))
      else if (tag =? "time")%string
      then Ok (made (TTime name))
      else if (tag =? "date")%string
      then Ok (made (TDate name))
      else if (tag =? "datestamp")%string || (tag =? "datetime")%string
      then Ok (made (TTimestamp name (field attr "standard")))
      else if (tag =? "array")%string
      then Ok (made (TSpecificType name "text ARRAY"))
      else if (tag =? "json")%string
      then Ok (made (TJson name false))
      else if (tag =? "jsonb")%string
      then Ok (made (TJson name true))
      else if (tag =? "binary")%string || (tag =? "bytea")%string
      then Ok (made (TBinary name))
      else if (tag =? "uuid")%string
      then Ok (mkColumn (TUuid name)
                        (Some [MDefaultTo (VStr "uuid_generate_v4()")]) [])
      else if (tag =? "enum")%string || (tag =? "enu")%string
      then Ok (made (TEnu name (field attr "enum")))
      else if (tag =? "comment")%string
      then Ok (mkColumn (TComment (field attr "comment")) None [])
      else if (tag =? "sqltype")%string || (tag =? "sqlType")%string
      then Ok (made (TSpecificType name t))
      else
        Ok (mkColumn (TText name VUndefined) (Some [])
              [[VStr "Unregistered type given for attribute. name="; name;
                VStr "; type="; type]])
  | _ => Throw TypeError
  end.

(** The case labels of the switch in [toKnexColumn]. *)
Definition caseLabels : list string :=
  ["character varying"; "text"; "mediumtext"; "longtext"; "string";
   "serial"; "smallserial"; "bigserial"; "boolean"; "int"; "integer";
   "smallint"; "bigint"; "biginteger"; "real"; "float"; "double";
   "decimal"; "time"; "date"; "datestamp"; "datetime"; "array"; "json";
   "jsonb"; "binary"; "bytea"; "uuid"; "enum"; "enu"; "comment"; "sqltype";
   "sqlType"].

(** The attribute object, its type tag and the column name, as
    [toKnexColumn] computes them before the switch. *)
Definition attrOf (attrDefinition : jsval) : jsval :=
  if isObject attrDefinition then attrDefinition
  else VObj [("type", attrDefinition)].

Definition typeOf (attrDefinition : jsval) : jsval :=
  if truthy (field (attrOf attrDefinition) "autoIncrement") then VStr "serial"
  else field (attrOf attrDefinition) "type".

Definition nameOf (_name attrDefinition : jsval) : jsval :=
  jsOr (field (attrOf attrDefinition) "columnName") _name.

Fixpoint memString (x : string) (l : list string) : bool :=
  match l with
  | [] => false
  | y :: l' => (x =? y)%string || memString x l'
  end.

(** A method call on a column builder. *)
Definition call (m : modifier) (c : column) : result (column * list diagnostic) :=
  match c with
  | Some ms => Ok (Some (ms ++ [m])%list, [])
  | None => Throw TypeError
  end.

(** [_.get(value, k)] *)
Definition safeGet (value : jsval) (k : string) : jsval := field value k.

Definition keyIs (key : jsval) (k : string) : bool :=
  match key with
  | VStr s => (s =? k)%string
  | _ => false
  end.

Definition applyParticularColumnConstraint
    (col : column) (constraintName value : jsval)
  : result (column * list diagnostic) :=
  if negb (truthy value) then Ok (col, [])
  else if keyIs constraintName "index"
  then call (MIndex (safeGet value "indexName") (safeGet value "indexType")) col
  else if keyIs constraintName "unique" then call MUnique col
  else if keyIs constraintName "notNull" then call MNotNullable col
  else if keyIs constraintName "defaultsTo" then call (MDefaultTo value) col
  else if keyIs constraintName "type" || keyIs constraintName "primaryKey"
          || keyIs constraintName "autoIncrement" || keyIs constraintName "on"
          || keyIs constraintName "via" || keyIs constraintName "foreignKey"
          || keyIs constraintName "references" || keyIs constraintName "model"
          || keyIs constraintName "alias"
  then Ok (col, [])
  else Ok (col, [[VStr "Unknown constraint ["; constraintName;
                  VStr "] on column"]]).

(** [value == 'AUTO_INCREMENT']: a string compares by content, an array
    through its [toString], which joins the elements with commas; no
    number, boolean or plain object converts to this text. *)
Fixpoint looseEqAutoIncrement (value : jsval) : bool :=
  match value with
  | VStr s => (s =? "AUTO_INCREMENT")%string
  | VArr [x] => looseEqAutoIncrement x
  | _ => false
  end.

(** The pairs [_.map] and [_.each] hand to their callback. *)
Fixpoint indexed (i : Z) (l : list jsval) : list (jsval * jsval) :=
  match l with
  | [] => []
  | x :: l' => (VNum i, x) :: indexed (i + 1) l'
  end.

Fixpoint chars (s : string) : list jsval :=
  match s with
  | EmptyString => []
  | String c r => VStr (String c "") :: chars r
  end.

(** lodash's [isLength]: a number that can be the length of an array. *)
Definition isLength (v : jsval) : option nat :=
  match v with
  | VNum n =>
      if (0 <=? n) && (n <=? 9007199254740991) then Some (Z.to_nat n) else None
  | _ => None
  end.

(** The property name a key of [_.each] and [_.map] stands for: the key
    itself on an object, the index in decimal where the walk is by
    index. *)
Definition keyName (key : jsval) : string :=
  match key with
  | VStr s => s
  | VNum i => showZ i
  | _ => ""
  end.

(** The walk by index of an array-like object: every index below its
    length, with the value the object has there. *)
Definition byIndex (o : list (string * jsval)) (n : nat) : list (jsval * jsval) :=
  map (fun i => (VNum (Z.of_nat i), field (VObj o) (showZ (Z.of_nat i))))
      (seq 0 n).

(** What [_.map] and [_.each] visit.  An object whose [length] is a
    length is array-like to lodash and is walked by index, not by its own
    keys. *)
Definition entries (collection : jsval) : list (jsval * jsval) :=
  match collection with
  | VObj o =>
      match isLength (field collection "length") with
      | Some n => byIndex o n
      | None => map (fun kv => (VStr (fst kv), snd kv)) o
      end
  | VArr l => indexed 0 l
  | VStr s => indexed 0 (chars s)
  | _ => []
  end.

Fixpoint applyEach (definition : jsval) (col : column)
    (props : list (jsval * jsval)) : result (column * list diagnostic) :=
  match props with
  | [] => Ok (col, [])
  | (key, value) :: rest =>
      '(col', log) <-
        (if keyIs key "defaultsTo" && truthy (field definition "autoIncrement")
            && looseEqAutoIncrement value
         then Ok (col, [])
         else applyParticularColumnConstraint col key value) ;;
      '(col'', log') <- applyEach definition col' rest ;;
      Ok (col'', (log ++ log')%list)
  end.

Definition applyColumnConstraints (col : column) (definition : jsval)
  : result (column * list diagnostic) :=
  if isString definition then Ok (col, [])
  else applyEach definition col (entries definition).

(** ** [lib/util.js]: criteria and joins *)

Definition PG_MAX_INT : Z := 2147483647.

Definition dq : string := String "034" "".
Definition nl : string := String "010" "".

Section Compiler.

(** The schema handed to the criteria parser, and the part of a criteria
    object the parser reads: every key but [sort], [limit], [groupBy] and
    [skip]. *)
Variable Schema : Type.
Variable Where : Type.

(** [new CriteriaParser(tableName, schema, options).read(criteria)] of
    waterline-sequel: the text with [$n] placeholders and its values. *)
Variable parserRead : string -> Schema -> Where -> string * list jsval.

(** A criteria object: [rest] is what the parser reads, [sort] maps
    fields to directions in enumeration order, [limit] and [skip] are
    numbers when present. *)
Record Criteria : Type := mkCriteria {
  rest : Where;
  sort : list (string * jsval);
  limit : option Z;
  skip : option Z
}.

(** A join specification; the three flags are read as JavaScript values
    ([junctionTable] for truthiness, [removeParentKey] against [true],
    [select] against [false]). *)
Record Join : Type := mkJoin {
  parent : string;
  parentKey : string;
  child : string;
  childKey : string;
  alias : string;
  junctionTable : jsval;
  removeParentKey : jsval;
  select : jsval;
  criteria : option Criteria
}.

(** The options of a joined find: a criteria object that also carries
    [joins]. *)
Record Options : Type := mkOptions {
  base : Criteria;
  joins : list Join
}.

(** A table's collection is its [definition] object: attribute names to
    attribute definitions, and the memo [_pk] once it is set. *)
Definition Collections : Type := list (string * list (string * jsval)).

Record Connection : Type := mkConnection {
  identity : string;
  schema : Schema;
  collections : Collections
}.

Fixpoint lookup {A : Type} (k : string) (m : list (string * A)) : option A :=
  match m with
  | [] => None
  | (k', a) :: m' => if (k =? k')%string then Some a else lookup k m'
  end.

Fixpoint store {A : Type} (k : string) (a : A) (m : list (string * A))
  : list (string * A) :=
  match m with
  | [] => [(k, a)]
  | (k', a') :: m' =>
      if (k =? k')%string then (k', a) :: m' else (k', a') :: store k a m'
  end.

Definition isOne (v : jsval) : bool :=
  match v with VNum 1 => true | _ => false end.

Definition isTrue (v : jsval) : bool :=
  match v with VBool true => true | _ => false end.

Definition isFalse (v : jsval) : bool :=
  match v with VBool false => true | _ => false end.

Definition orderToken (tableName : string) (entry : jsval * jsval) : string :=
  let direction := if isOne (snd entry) then "" else "desc" in
  dq ++ tableName ++ dq ++ "." ++ dq ++ keyName (fst entry) ++ dq ++ " "
     ++ direction.

(** [_.isEmpty] of a plain object asks for own keys; [_.map] walks what
    [entries] gives. *)
Definition buildOrderByClause (tableName : string) (options : Criteria)
  : string :=
  match sort options with
  | [] => "1"
  | _ => joinWith ", " (map (orderToken tableName)
                            (entries (VObj (sort options))))
  end.

Definition buildWhereClause (cxn : Connection) (tableName : string)
    (options : Criteria) : result knexRaw :=
  let clause := parserRead tableName (schema cxn) (rest options) in
  let sql := toKnexRawQuery (fst clause) in
  bindings <- castValues (snd clause) ;;
  Ok (mkRaw sql bindings).

Definition getJoinAlias (join : Join) : string :=
  if negb (alias join =? parentKey join)%string && isTrue (removeParentKey join)
  then parentKey join
  else alias join.

Definition getParentAlias (join : Join) : string :=
  if truthy (junctionTable join)
  then getJoinAlias join ++ parent join
  else parent join.

Definition getSubqueryAlias (join : Join) : string :=
  getJoinAlias join ++ child join.

(** [join.criteria || { }]: the empty object has none of the four keys,
    and what the parser reads of it is what it reads of [empty]. *)
Variable empty : Where.

Definition criteriaOf (join : Join) : Criteria :=
  match criteria join with
  | Some c => c
  | None => mkCriteria empty [] None None
  end.

(** [select().from(child).where(...).andWhereRaw(...)] *)
Record subquery : Type := mkSubquery {
  sFrom : string;
  sWhere : knexRaw;
  sAndWhereRaw : string
}.

Definition buildKnexJoinSubquery (cxn : Connection) (join : Join)
  : result subquery :=
  let criteria := criteriaOf join in
  let parentAlias := getParentAlias join in
  w <- buildWhereClause cxn (child join) criteria ;;
  Ok (mkSubquery (child join) w
        (dq ++ child join ++ dq ++ "." ++ dq ++ childKey join ++ dq ++ " = "
         ++ dq ++ parentAlias ++ dq ++ "." ++ dq ++ parentKey join ++ dq)).

(** The bounds of the array slice in [buildSelectAggregationColumns]. *)
Definition sliceStart (criteria : Criteria) : Z :=
  orDefault (skip criteria) 0 + 1.

Definition sliceEnd (criteria : Criteria) : Z :=
  let start := sliceStart criteria in
  orDefault (limit criteria) (PG_MAX_INT - start) + start - 1.

Definition aggregationColumn (join : Join) : string :=
  let criteria := criteriaOf join in
  let subqueryAlias := getSubqueryAlias join in
  let asColumn := getJoinAlias join in
  let orderBy := buildOrderByClause subqueryAlias criteria in
  let start := sliceStart criteria in
  let end_ := sliceEnd criteria in
  nl ++ "        array_to_json(" ++
  nl ++ "          (array_remove(array_agg(" ++ dq ++ subqueryAlias ++ dq
     ++ ".* order by " ++ orderBy ++ "), null))["
     ++ showZ start ++ ":" ++ showZ end_ ++ "]" ++
  nl ++ "        ) as " ++ dq ++ asColumn ++ dq ++
  nl ++ "      ".

(** [_.reject(options.joins, { select: false })] *)
Definition selected (js : list Join) : list Join :=
  filter (fun join => negb (isFalse (select join))) js.

Definition buildSelectAggregationColumns (options : Options) : list string :=
  map aggregationColumn (selected (joins options)).

(** ** [lib/adapter.js]: the primary key of a table *)

(** What a caller passes where [getPrimaryKey] destructures
    [{ collections }]: the connection, or the connection's identity.  A
    string has no [collections] property. *)
Inductive pkArgument : Type :=
| ByConnection (cxn : Connection)
| ByIdentity (name : string).

Definition collectionsOf (arg : pkArgument) : option Collections :=
  match arg with
  | ByConnection cxn => Some (collections cxn)
  | ByIdentity _ => None
  end.

(** [_.findKey(definition, attr => attr.primaryKey === true)] *)
Fixpoint findKey (definition : list (string * jsval)) : result (option string) :=
  match definition with
  | [] => Ok None
  | (name, attr) :: definition' =>
      flag <- getProp attr "primaryKey" ;;
      if isTrue flag then Ok (Some name) else findKey definition'
  end.

(** Returns the key together with the collections after the memo
    [definition._pk] has been written. *)
Definition getPrimaryKey (arg : pkArgument) (tableName : string)
  : result (jsval * Collections) :=
  match collectionsOf arg with
  | None => Throw TypeError
  | Some cs =>
      match lookup tableName cs with
      | None => Throw TypeError
      | Some definition =>
          if negb (truthy (field (VObj definition) "_pk")) then
            pk <- findKey definition ;;
            let key :=
              match pk with
              | Some name => jsOr (VStr name) (VStr "id")
              | None => VStr "id"
              end in
            Ok (key, store tableName (setMember "_pk" key definition) cs)
          else Ok (field (VObj definition) "_pk", cs)
      end
  end.

(** A value interpolated into a template literal where the embedding
    expects a string. *)
Definition text (v : jsval) : result string :=
  match v with
  | VStr s => Ok s
  | _ => Beyond NotAString
  end.

(** ** [lib/util.js]: the joined query *)

Record knexQuery : Type := mkQuery {
  qSelect : string;
  qFrom : string;
  qWhere : knexRaw;
  qGroupBy : string;
  qOrderByRaw : string;
  qLimit : Z;
  qOffset : Z;
  qJoinRaw : list (subquery * string)
}.

Definition buildKnexJoin (cxn : Connection) (tableName : string)
    (options : Options) : result knexQuery :=
  let selectClause :=
    joinWith ", "
      ((dq ++ tableName ++ dq ++ ".*")%string
         :: buildSelectAggregationColumns options) in
  '(pk, _) <- getPrimaryKey (ByIdentity (identity cxn)) tableName ;;
  w <- buildWhereClause cxn tableName (base options) ;;
  pkName <- text pk ;;
  laterals <-
    mapM (fun join =>
            sub <- buildKnexJoinSubquery cxn join ;;
            Ok (sub, getSubqueryAlias join))
         (joins options) ;;
  Ok (mkQuery selectClause tableName w
        (tableName ++ "." ++ pkName)
        (buildOrderByClause tableName (base options))
        (orDefault (limit (base options)) PG_MAX_INT)
        (orDefault (skip (base options)) 0)
        laterals).

(** ** [lib/adapter.js]: nested rows of a joined find *)

(** [===] on the values a key column holds; two arrays or objects read
    from different rows are different objects. *)
Definition strictEq (a b : jsval) : bool :=
  match a, b with
  | VUndefined, VUndefined => true
  | VNull, VNull => true
  | VBool x, VBool y => Bool.eqb x y
  | VNum x, VNum y => (x =? y)
  | VStr x, VStr y => (x =? y)%string
  | _, _ => false
  end.

(** The loop of [_.uniqBy(array, pk)]: [seen] holds the keys of the
    elements kept so far. *)
Fixpoint baseUniq (pk : string) (seen : list jsval) (array : list jsval)
  : list jsval :=
  match array with
  | [] => []
  | value :: array' =>
      let computed := field value pk in
      if existsb (strictEq computed) seen
      then baseUniq pk seen array'
      else value :: baseUniq pk (seen ++ [computed])%list array'
  end.

Definition uniqBy (array : list jsval) (pk : string) : list jsval :=
  baseUniq pk [] array.

Definition compact (array : list jsval) : list jsval := filter truthy array.

(** The elements [_.uniqBy] iterates: those of an array; [null] and
    [undefined] have none. *)
Definition elements (v : jsval) : list jsval :=
  match v with
  | VArr l => l
  | VStr s => chars s
  | _ => []
  end.

(** [row[alias] = value] *)
Definition assign (row : jsval) (k : string) (value : jsval) : result jsval :=
  match row with
  | VObj o => Ok (VObj (setMember k value o))
  | VArr _ => Beyond NotARow
  | _ => Throw TypeError
  end.

(** The members the object literal of [lib/util.js] gives [Util]. *)
Definition utilMembers : list string :=
  ["PG_MAX_INT"; "JS_MAX_INT"; "commitTransaction"; "getTransaction";
   "applyPrimaryKeyConstraints"; "applyTableConstraints";
   "applyColumnConstraints"; "applyParticularColumnConstraint";
   "toKnexColumn"; "toKnexRawQuery"; "castValues"; "sanitize";
   "buildKnexJoin"; "buildKnexJoinSubquery"; "buildOrderByClause";
   "buildWhereClause"; "getJoinAlias"; "getParentAlias"; "getSubqueryAlias";
   "buildSelectAggregationColumns"; "buildSelectColumns"; "validateVersion"].

(** [Util.name(...)] once its arguments are evaluated: a name the
    literal lacks reads as [undefined], and calling it raises. *)
Definition utilCall {A : Type} (name : string) : result A :=
  if memString name utilMembers then Beyond NotFollowed else Throw TypeError.

(** [Util.buildKnexJoinQuery(cxn, tableName, options)] and
    [Util.castResultRows(rows, schema)], as [lib/adapter.js] calls them. *)
Definition buildKnexJoinQuery (cxn : Connection) (tableName : string)
    (options : Options) : result (list jsval) :=
  utilCall "buildKnexJoinQuery".

Definition castResultRows (rows : list jsval)
    (schema : option (list (string * jsval))) : result (list jsval) :=
  utilCall "castResultRows".

Definition dedupeRow (aliasName pk : string)
    (childSchema : option (list (string * jsval))) (row : jsval) : result jsval :=
  nested <- getProp row aliasName ;;
  cast <- castResultRows (compact (uniqBy (elements nested) pk)) childSchema ;;
  assign row aliasName (VArr cast).

Fixpoint dedupeJoins (cs : Collections) (cxn : Connection)
    (js : list Join) (rows : list jsval) : result (list jsval * Collections) :=
  match js with
  | [] => Ok (rows, cs)
  | join :: js' =>
      let aliasName := getJoinAlias join in
      '(pk, cs') <-
        getPrimaryKey
          (ByConnection (mkConnection (identity cxn) (schema cxn) cs))
          (child join) ;;
      let childSchema := lookup (child join) cs' in
      pkName <- text pk ;;
      rows' <- mapM (dedupeRow aliasName pkName childSchema) rows ;;
      dedupeJoins cs' cxn js' rows'
  end.

(** [Adapter.join]: the body of its promise, and the [then] callback on
    the rows of the query. *)
Definition join (cxn : Connection) (tableName : string) (options : Options)
  : result (list jsval) :=
  rows <- buildKnexJoinQuery cxn tableName options ;;
  '(rows', cs) <-
    dedupeJoins (collections cxn) cxn (selected (joins options)) rows ;;
  castResultRows rows' (lookup tableName cs).

(** ** [lib/adapter.js]: schema statements *)

(** One column of a table statement: the table call, and the builder
    after the constraints were applied. *)
Record columnStatement : Type := mkStatement {
  attribute : jsval;
  tableStatement : tableCall;
  constrained : column;
  diagnostics : list diagnostic
}.

(** [Util.applyPrimaryKeyConstraints]: the argument of [table.primary],
    the keys of [_.pick(definition, predicate)].  The lodash that has the
    [uniqBy] of [join] takes what follows the object in [_.pick] for
    property paths: the predicate is never called, its text is read as a
    path, and that path leads to no attribute.  No key is picked. *)
Definition applyPrimaryKeyConstraints (definition : jsval) : list string := [].

Definition applyTableConstraints (definition : jsval) : list string :=
  applyPrimaryKeyConstraints definition.

(** What an operation asks of the connection, in order.  [exists] of
    [define] is what [hasTable] resolved to; [primary] is what the
    callback of [createTable] hands to [table.primary] after the columns. *)
Inductive schemaCall : Type :=
| CollectionsGet (key : string)
| HasTable (tableName : string)
| CreateTable (tableName : string) (columns : list columnStatement)
    (primary : list string)
| AlterTable (tableName : string) (columns : list columnStatement).

Definition addColumn (entry : jsval * jsval) : result columnStatement :=
  let '(attributeName, definition) := entry in
  newColumn <- toKnexColumn attributeName definition ;;
  '(col, log) <- applyColumnConstraints (builder newColumn) definition ;;
  Ok (mkStatement attributeName (statement newColumn) col
        (logged newColumn ++ log)%list).

Definition define (connections : list (string * Connection))
    (connectionName _tableName : string) (definition : jsval) (exists_ : bool)
  : result (list schemaCall) :=
  match lookup connectionName connections with
  | None => Throw TypeError
  | Some cxn =>
      let tableName := substring 0 63 _tableName in
      if exists_ then Ok [CollectionsGet _tableName; HasTable tableName]
      else
        columns <- mapM addColumn (entries definition) ;;
        Ok [CollectionsGet _tableName; HasTable tableName;
            CreateTable tableName columns (applyTableConstraints definition)]
  end.

Definition addAttribute (connections : list (string * Connection))
    (connectionName tableName : string) (attributeName definition : jsval)
  : result (list schemaCall) :=
  match lookup connectionName connections with
  | None => Throw TypeError
  | Some cxn =>
      column <- addColumn (attributeName, definition) ;;
      Ok [CollectionsGet tableName; AlterTable tableName [column]]
  end.

End Compiler.

(** The table names an operation puts into SQL, and the keys it reads
    collections under. *)
Definition sqlNames (calls : list schemaCall) : list string :=
  flat_map (fun c => match c with
                     | CollectionsGet _ => []
                     | HasTable t => [t]
                     | CreateTable t _ _ => [t]
                     | AlterTable t _ => [t]
                     end) calls.

Definition collectionKeys (calls : list schemaCall) : list string :=
  flat_map (fun c => match c with
                     | CollectionsGet k => [k]
                     | _ => []
                     end) calls.

(** What the specification says of the placeholder rewriting: a dollar
    sign with the whole run of digits after it becomes one question mark,
    and every other character is copied. *)
Fixpoint allDigits (s : string) : bool :=
  match s with
  | EmptyString => true
  | String c r => isDigit c && allDigits r
  end.

Inductive rewritten : string -> string -> Prop :=
| rewritten_end : rewritten "" ""
| rewritten_token (digits rest out : string) :
    digits <> "" -> allDigits digits = true -> headIsDigit rest = false ->
    rewritten rest out ->
    rewritten (String "$" (digits ++ rest)) (String "?" out)
| rewritten_copy (c : ascii) (rest out : string) :
    (N_of_ascii c =? 36)%N && headIsDigit rest = false ->
    rewritten rest out ->
    rewritten (String c rest) (String c out).

Fixpoint leadingDigits (s : string) : string :=
  match s with
  | String c r => if isDigit c then String c (leadingDigits r) else ""
  | EmptyString => ""
  end.

Fixpoint dropDigits (s : string) : string :=
  match s with
  | String c r => if isDigit c then dropDigits r else s
  | EmptyString => ""
  end.

(** A table name of 64 characters. *)
Definition longTableName : string :=
  "a_collection_whose_table_name_runs_past_the_identifier_limit_abc".

(** What the specification says of one value and its cast: a string that
    begins with an opening bracket is replaced by the array it parses to,
    any other value is kept. *)
Definition castOf (value cast : jsval) : Prop :=
  match value with
  | VStr s =>
      if startsWithBracket s
      then JSON_parse s = Ok cast /\ isArray cast = true
      else cast = value
  | _ => cast = value
  end.

(** ** [lib/adapter.js]: the list of operations under way *)

(** [pool.push(key)] and [_.pull(pool, key)], which removes every entry
    equal to [key]. *)
Definition add (key : string) (pool : list string) : list string :=
  (pool ++ [key])%list.

Definition del (key : string) (pool : list string) : list string :=
  filter (fun entry => negb (entry =? key)%string) pool.

(** ** [lib/adapter.js]: [teardown] *)

(** What a [for...of] loop runs over: an array, which every loop reads
    whole, or the iterator [Map.prototype.values()] returns, which a loop
    uses up. *)
Inductive iterable (A : Type) : Type :=
| FromArray (items : list A)
| FromIterator (remaining : list A).

Arguments FromArray {A} items.
Arguments FromIterator {A} remaining.

(** The values one loop gets, and the iterable after the loop. *)
Definition forOf {A : Type} (it : iterable A) : list A * iterable A :=
  match it with
  | FromArray items => (items, FromArray items)
  | FromIterator remaining => (remaining, FromIterator [])
  end.

Section Registry.

Variable Schema : Type.

(** [Adapter.connections], a map from identity to connection, in the
    order of registration. *)
Definition Registry : Type := list (string * Connection Schema).

(** [Adapter.connections.get(conn)]: the keys are identities, so any
    other value finds nothing. *)
Definition registryGet (connections : Registry) (conn : jsval)
  : option (Connection Schema) :=
  match conn with
  | VStr name => lookup name connections
  | _ => None
  end.

(** [Adapter.connections.delete(identity)] *)
Definition registryDelete (name : string) (connections : Registry) : Registry :=
  filter (fun entry => negb (fst entry =? name)%string) connections.

(** [teardown(conn)]: the identities whose pool is destroyed, in order,
    and the registry afterwards.  [resolved] says whether every
    [knex.destroy()] resolved; the deletions happen only then. *)
Definition teardown (connections : Registry) (conn : jsval) (resolved : bool)
  : list string * Registry :=
  let found :=
    if truthy conn then FromArray [registryGet connections conn]
    else FromIterator (map (fun entry => Some (snd entry)) connections) in
  let '(first, found') := forOf found in
  let destroyed :=
    flat_map (fun c => match c with
                       | Some cxn => [identity Schema cxn]
                       | None => []
                       end) first in
  if resolved then
    let '(second, _) := forOf found' in
    (destroyed,
     fold_left (fun registry c =>
                  match c with
                  | Some cxn => registryDelete (identity Schema cxn) registry
                  | None => registry
                  end) second connections)
  else (destroyed, connections).

End Registry.

(** ** [lib/util.js]: [sanitize] *)

Definition removeKey (k : string) (o : list (string * jsval))
  : list (string * jsval) :=
  filter (fun kv => negb (fst kv =? k)%string) o.

(** [delete data[attr]].  On an array it leaves a hole; on a string,
    strict code raises. *)
Definition deleteProp (data : jsval) (k : string) : result jsval :=
  match data with
  | VObj o => Ok (VObj (removeKey k o))
  | VArr _ => Beyond NotARow
  | _ => Throw TypeError
  end.

(** The names a plain object inherits from [Object.prototype]. *)
Definition objectPrototype : list string :=
  ["constructor"; "toString"; "toLocaleString"; "valueOf"; "hasOwnProperty";
   "isPrototypeOf"; "propertyIsEnumerable"; "__proto__"; "__defineGetter__";
   "__defineSetter__"; "__lookupGetter__"; "__lookupSetter__"].

(** [schema.definition[attr].autoIncrement], the definition being a plain
    object: an own member is read as it is; an inherited one is a function
    or the prototype, which has no such property; anything else is
    [undefined], and the read raises. *)
Definition autoIncrementFlag (attributes : list (string * jsval)) (k : string)
  : result jsval :=
  match assoc k attributes with
  | Some definition => getProp definition "autoIncrement"
  | None =>
      if memString k objectPrototype then Ok VUndefined else Throw TypeError
  end.

(** The callback of [_.each] in [sanitize], over what [entries] gave when
    the loop began.  [schema] is the collection of the table, [None] when
    the connection has none under that name. *)
Fixpoint sanitizeEach (schema : option (list (string * jsval)))
    (props : list (jsval * jsval)) (data : jsval) : result jsval :=
  match props with
  | [] => Ok data
  | (attr, _) :: props' =>
      flag <-
        match schema with
        | Some attributes => autoIncrementFlag attributes (keyName attr)
        | None => Throw TypeError
        end ;;
      data' <-
        (if truthy flag then deleteProp data (keyName attr) else Ok data) ;;
      sanitizeEach schema props' data'
  end.

Definition sanitize (data : jsval) (schema : option (list (string * jsval)))
  : result jsval :=
  sanitizeEach schema (entries data) data.

(** Whether the schema marks an attribute as auto-increment. *)
Definition autoIncrementIn (attributes : list (string * jsval)) (k : string)
  : bool :=
  truthy (field (field (VObj attributes) k) "autoIncrement").

Definition nullish (v : jsval) : bool :=
  match v with
  | VUndefined | VNull => true
  | _ => false
  end.

(** The column name a table call was given; a table comment has none. *)
Definition calledName (c : tableCall) : option jsval :=
  match c with
  | TText name _ | TString name _ | TSpecificType name _ | TBoolean name
  | TInteger name | TBigInteger name | TFloat name _ _ | TDecimal name _ _
  | TTime name | TDate name | TTimestamp name _ | TJson name _
  | TBinary name | TUuid name | TEnu name _ => Some name
  | TComment _ => None
  end.

(** The case labels whose table call does not carry the type tag. *)
Definition fixedLabels : list string :=
  ["string"; "serial"; "smallserial"; "bigserial"; "boolean"; "int";
   "integer"; "smallint"; "bigint"; "biginteger"; "real"; "float"; "double";
   "decimal"; "time"; "date"; "datestamp"; "datetime"; "array"; "json";
   "jsonb"; "binary"; "bytea"; "uuid"; "enum"; "enu"; "comment"].

(** A default that is not the auto-increment marker. *)
Definition plainModifier (m : modifier) : bool :=
  match m with
  | MDefaultTo value => negb (looseEqAutoIncrement value)
  | _ => true
  end.

(** Two entries of an association array carry different keys. *)
Definition differentKeys (pk : string) (x y : jsval) : Prop :=
  strictEq (field x pk) (field y pk) = false.

(** A string that begins with an opening bracket. *)
Definition bracketString (v : jsval) : bool :=
  match v with
  | VStr s => startsWithBracket s
  | _ => false
  end.

(** * Properties *)

Ltac split_ifs :=
  repeat match goal with
         | |- context [if ?b then _ else _] => destruct b
         end.

Ltac switch_named :=
  match goal with
  | |- context [(?tag =? ?label)%string] =>
      let E := fresh "E" in
      destruct (tag =? label)%string eqn:E;
      [ apply String.eqb_eq in E; rewrite E; eexists;
        split; [ reflexivity
               | first [ left; reflexivity
                       | right; split; [ reflexivity | split; reflexivity ] ] ]
      | ]
  end.


Ltac switch_case :=
  match goal with
  | |- context [(?tag =? ?label)%string] =>
      let E := fresh "E" in
      destruct (tag =? label)%string eqn:E;
      [ apply String.eqb_eq in E; rewrite E; eexists;
        split; [ reflexivity
               | split; [ intros _; reflexivity
                        | intros Hf; vm_compute in Hf; discriminate Hf ] ]
      | ]
  end.

(** ** The parser's fuel *)

Lemma consumes_weaken {A : Type} (r : result (A * string)) (s t : string) :
  (String.length s <= String.length t)%nat -> consumes r s -> consumes r t.
Proof.
  unfold consumes. destruct r as [ [a rest] | e | [ | | | | | ] ]; intros; try exact I;
    try lia; try contradiction.
Qed.

Lemma skipWhitespace_length (s : string) :
  (String.length (skipWhitespace s) <= String.length s)%nat.
Proof.
  induction s as [ | c r IH ]; [ cbn; lia | ].
  cbn [skipWhitespace]. destruct (isWhitespace c); cbn [String.length]; lia.
Qed.

Lemma parseChars_consumes (n : nat) :
  forall s acc, (String.length s < n)%nat -> consumes (parseChars acc s) s.
Proof.
  induction n as [ | n IH ]; intros s acc Hn; [ lia | ].
  destruct s as [ | c r ]; [ exact I | ].
  cbn [String.length] in Hn.
  assert (Hr : forall a t, (String.length t <= String.length r)%nat ->
                           consumes (parseChars a t) (String c r)).
  { intros a t Ht. apply (consumes_weaken _ t); [ cbn; lia | ].
    apply IH. lia. }
  cbn [parseChars].
  destruct (N_of_ascii c =? 34)%N; [ cbn; lia | ].
  destruct (N_of_ascii c <? 32)%N; [ exact I | ].
  destruct (N_of_ascii c =? 92)%N; [ | apply Hr; lia ].
  destruct r as [ | e r' ]; [ exact I | ].
  cbn zeta.
  repeat match goal with
         | |- context [if ?b then parseChars _ _ else _] =>
             destruct b; [ apply Hr; cbn; lia | ]
         end.
  destruct (N_of_ascii e =? 117)%N; [ | exact I ].
  destruct r' as [ | h1 [ | h2 [ | h3 [ | h4 r'' ] ] ] ]; try exact I.
  destruct (hex4 h1 h2 h3 h4); [ | exact I ].
  destruct (_ <? 256)%N; [ apply Hr; cbn; lia | exact I ].
Qed.

Lemma takeDigits_length (s : string) :
  forall acc, (String.length (snd (takeDigits acc s)) <= String.length s)%nat.
Proof.
  induction s as [ | c r IH ]; intros acc; [ cbn; lia | ].
  cbn [takeDigits]. destruct (isDigit c); [ | cbn; lia ].
  specialize (IH (acc * 10 + Z.of_N (N_of_ascii c - 48))).
  cbn [String.length]. lia.
Qed.

Lemma parseFraction_fuel (s : string) : parseFraction s <> Beyond OutOfFuel.
Proof.
  unfold parseFraction. destruct s as [ | c r ]; [ discriminate | ].
  destruct r as [ | g r' ]; split_ifs; discriminate.
Qed.

Lemma parseNumber_consumes (s : string) : consumes (parseNumber s) s.
Proof.
  unfold parseNumber.
  assert (Hgen : forall neg t,
    (String.length t <= String.length s)%nat ->
    consumes
      match t with
      | String d r =>
          if isDigit d then
            let '(n, rest) :=
              if (N_of_ascii d =? 48)%N then (0, r) else takeDigits 0 t in
            u <- parseFraction rest ;;
            if n <=? 9007199254740992
            then Ok (if neg : bool then - n else n, rest)
            else Beyond NotAnInteger
          else Throw SyntaxError
      | EmptyString => Throw SyntaxError
      end s).
  { intros neg t Ht. destruct t as [ | d r ]; [ exact I | ].
    destruct (isDigit d) eqn:Hd; [ | exact I ].
    cbn [String.length] in Ht.
    destruct (N_of_ascii d =? 48)%N.
    - pose proof (parseFraction_fuel r) as Hf.
      destruct (parseFraction r) as [ [] | e | why ]; cbn; try exact I;
        [ lia | destruct why; try exact I; contradiction ].
    - pose proof (takeDigits_length (String d r) 0) as Hlen.
      destruct (takeDigits 0 (String d r)) as [n rest] eqn:Ht0.
      cbn [snd String.length] in Hlen.
      assert (Hrest : (String.length rest <= String.length r)%nat).
      { cbn [takeDigits] in Ht0. rewrite Hd in Ht0.
        pose proof (takeDigits_length r (0 * 10 + Z.of_N (N_of_ascii d - 48)))
          as Hl.
        rewrite Ht0 in Hl. exact Hl. }
      pose proof (parseFraction_fuel rest) as Hf.
      destruct (parseFraction rest) as [ [] | e | why ];
        [ cbn [bind]; destruct (n <=? 9007199254740992); cbn; [ lia | exact I ]
        | exact I
        | destruct why; try exact I; contradiction ]. }
  destruct s as [ | c r ]; [ exact I | ].
  destruct (N_of_ascii c =? 45)%N.
  - apply (Hgen true r). cbn. lia.
  - apply (Hgen false (String c r)). lia.
Qed.

Lemma dropPrefix_length (p : string) :
  forall s rest,
    dropPrefix p s = Some rest ->
    (String.length rest + String.length p = String.length s)%nat.
Proof.
  induction p as [ | a p IH ]; intros s rest H.
  - cbn in H. injection H as <-. cbn. lia.
  - destruct s as [ | b s ]; [ discriminate | ].
    cbn [dropPrefix] in H. destruct (a =? b)%char; [ | discriminate ].
    apply IH in H. cbn [String.length]. lia.
Qed.

Lemma consumes_bind {A B : Type} (m : result (A * string))
    (k : A * string -> result (B * string)) (s' s : string) :
  consumes m s' ->
  (forall a rest, (String.length rest < String.length s')%nat ->
                  consumes (k (a, rest)) s) ->
  consumes (bind m k) s.
Proof.
  intros Hm Hk. destruct m as [ [a rest] | e | why ]; cbn in *.
  - apply Hk. exact Hm.
  - exact I.
  - destruct why; try exact I. contradiction.
Qed.

Lemma parse_fuel (fuel : nat) :
  (forall s, (2 * String.length s + 2 <= fuel)%nat ->
             consumes (parseValue fuel s) s)
  /\ (forall s acc, (2 * String.length s + 3 <= fuel)%nat ->
                    consumes (parseElements fuel s acc) s)
  /\ (forall s acc, (2 * String.length s + 3 <= fuel)%nat ->
                    consumes (parseMembers fuel s acc) s).
Proof.
  induction fuel as [ | f [IHv [IHe IHm]] ].
  { repeat split; intros; lia. }
  split; [ | split ].
  - intros s Hf. cbn [parseValue].
    pose proof (skipWhitespace_length s) as Hs.
    destruct (skipWhitespace s) as [ | c r ]; [ exact I | ].
    cbn [String.length] in Hs. cbv zeta.
    destruct (N_of_ascii c =? 91)%N.
    { pose proof (skipWhitespace_length r) as Hr.
      destruct (skipWhitespace r) as [ | c' r' ]; [ exact I | ].
      cbn [String.length] in Hr.
      destruct (N_of_ascii c' =? 93)%N; [ cbn; lia | ].
      apply (consumes_bind _ _ r); [ apply IHe; lia | ].
      intros l rest Hrest. cbn. lia. }
    destruct (N_of_ascii c =? 123)%N.
    { pose proof (skipWhitespace_length r) as Hr.
      destruct (skipWhitespace r) as [ | c' r' ]; [ exact I | ].
      cbn [String.length] in Hr.
      destruct (N_of_ascii c' =? 125)%N; [ cbn; lia | ].
      apply (consumes_bind _ _ r); [ apply IHm; lia | ].
      intros o rest Hrest. cbn. lia. }
    destruct (N_of_ascii c =? 34)%N.
    { apply (consumes_bind _ _ r);
        [ apply (parseChars_consumes (S (String.length r))); lia | ].
      intros str rest Hrest. cbn. lia. }
    destruct (N_of_ascii c =? 116)%N.
    { destruct (dropPrefix "true" (String c r)) as [ rest | ] eqn:Hp;
        [ | exact I ].
      apply dropPrefix_length in Hp. cbn in *. lia. }
    destruct (N_of_ascii c =? 102)%N.
    { destruct (dropPrefix "false" (String c r)) as [ rest | ] eqn:Hp;
        [ | exact I ].
      apply dropPrefix_length in Hp. cbn in *. lia. }
    destruct (N_of_ascii c =? 110)%N.
    { destruct (dropPrefix "null" (String c r)) as [ rest | ] eqn:Hp;
        [ | exact I ].
      apply dropPrefix_length in Hp. cbn in *. lia. }
    apply (consumes_bind _ _ (String c r));
      [ apply parseNumber_consumes | ].
    intros z rest Hrest. cbn in *. lia.
  - intros s acc Hf. cbn [parseElements].
    apply (consumes_bind _ _ s); [ apply IHv; lia | ].
    intros v rest Hrest. cbv beta iota.
    pose proof (skipWhitespace_length rest) as Hr.
    destruct (skipWhitespace rest) as [ | c r ]; [ exact I | ].
    cbn [String.length] in Hr.
    destruct (N_of_ascii c =? 44)%N.
    { apply (consumes_weaken _ r); [ lia | ]. apply IHe. lia. }
    destruct (N_of_ascii c =? 93)%N; [ cbn; lia | exact I ].
  - intros s acc Hf. cbn [parseMembers].
    pose proof (skipWhitespace_length s) as Hs.
    destruct (skipWhitespace s) as [ | q r ]; [ exact I | ].
    cbn [String.length] in Hs.
    destruct (N_of_ascii q =? 34)%N; [ | exact I ].
    apply (consumes_bind _ _ r);
      [ apply (parseChars_consumes (S (String.length r))); lia | ].
    intros key rest Hrest. cbv beta iota.
    pose proof (skipWhitespace_length rest) as Hr.
    destruct (skipWhitespace rest) as [ | c r' ]; [ exact I | ].
    cbn [String.length] in Hr.
    destruct (N_of_ascii c =? 58)%N; [ | exact I ].
    apply (consumes_bind _ _ r'); [ apply IHv; lia | ].
    intros v rest' Hrest'. cbv beta iota.
    pose proof (skipWhitespace_length rest') as Hr'.
    destruct (skipWhitespace rest') as [ | d r'' ]; [ exact I | ].
    cbn [String.length] in Hr'.
    destruct (N_of_ascii d =? 44)%N.
    { apply (consumes_weaken _ r''); [ lia | ]. apply IHm. lia. }
    destruct (N_of_ascii d =? 125)%N; [ cbn; lia | exact I ].
Qed.

(** [JSON_parse] never stops for lack of fuel. *)
Lemma JSON_parse_fuel (s : string) : JSON_parse s <> Beyond OutOfFuel.
Proof.
  unfold JSON_parse.
  destruct (parse_fuel (2 * String.length s + 2)) as [Hv _].
  specialize (Hv s (Nat.le_refl _)).
  destruct (parseValue _ s) as [ [v rest] | e | why ]; cbn in *.
  - destruct (skipWhitespace rest); discriminate.
  - discriminate.
  - destruct why; try discriminate. contradiction.
Qed.

(** ** Placeholders and parameters *)

Lemma digit_not_question (c : ascii) :
  isDigit c = true -> (c =? "?")%char = false.
Proof.
  intros H. destruct (Ascii.eqb_spec c "?") as [-> | _]; [ | reflexivity ].
  vm_compute in H. discriminate.
Qed.

Lemma digit_not_dollar (c : ascii) :
  isDigit c = true -> (N_of_ascii c =? 36)%N = false.
Proof.
  unfold isDigit. intros H.
  apply andb_prop in H. destruct H as [H _].
  apply N.leb_le in H. apply N.eqb_neq. lia.
Qed.

Lemma dollar_not_question (c : ascii) :
  (N_of_ascii c =? 36)%N = true -> (c =? "?")%char = false.
Proof.
  intros H. destruct (Ascii.eqb_spec c "?") as [-> | _]; [ | reflexivity ].
  vm_compute in H. discriminate.
Qed.

Lemma placeholders_replace (sql : string) :
  forall inMatch,
    placeholders (replaceDollarDigits inMatch sql)
    = (placeholders sql + dollarTokens sql)%nat.
Proof.
  unfold placeholders.
  induction sql as [ | c r IH ]; intros inMatch; [ reflexivity | ].
  cbn [replaceDollarDigits countChar dollarTokens].
  destruct (inMatch && isDigit c) eqn:Hskip.
  - apply andb_prop in Hskip. destruct Hskip as [_ Hd].
    rewrite (digit_not_question c Hd), (digit_not_dollar c Hd), IH.
    reflexivity.
  - destruct ((N_of_ascii c =? 36)%N && headIsDigit r) eqn:Htok.
    + apply andb_prop in Htok. destruct Htok as [Hc _].
      rewrite (dollar_not_question c Hc).
      cbn [countChar]. rewrite IH. cbn. lia.
    + cbn [countChar]. rewrite IH. lia.
Qed.

Lemma replace_without_tokens (sql : string) :
  dollarTokens sql = 0%nat -> toKnexRawQuery sql = sql.
Proof.
  unfold toKnexRawQuery.
  induction sql as [ | c r IH ]; [ reflexivity | ].
  cbn [replaceDollarDigits dollarTokens andb].
  destruct ((N_of_ascii c =? 36)%N && headIsDigit r); [ discriminate | ].
  intros H. rewrite IH by exact H. reflexivity.
Qed.

Lemma leading_drop (s : string) : leadingDigits s ++ dropDigits s = s.
Proof.
  induction s as [ | c r IH ]; [ reflexivity | ].
  cbn [leadingDigits dropDigits]. destruct (isDigit c); [ | reflexivity ].
  cbn. rewrite IH. reflexivity.
Qed.

Lemma leading_allDigits (s : string) : allDigits (leadingDigits s) = true.
Proof.
  induction s as [ | c r IH ]; [ reflexivity | ].
  cbn [leadingDigits]. destruct (isDigit c) eqn:Hc; [ | reflexivity ].
  cbn [allDigits]. rewrite Hc, IH. reflexivity.
Qed.

Lemma drop_no_digit (s : string) : headIsDigit (dropDigits s) = false.
Proof.
  induction s as [ | c r IH ]; [ reflexivity | ].
  cbn [dropDigits]. destruct (isDigit c) eqn:Hc; [ exact IH | ].
  cbn. exact Hc.
Qed.

Lemma drop_length (s : string) :
  (String.length (dropDigits s) <= String.length s)%nat.
Proof.
  induction s as [ | c r IH ]; [ cbn; lia | ].
  cbn [dropDigits]. destruct (isDigit c); cbn [String.length]; lia.
Qed.

Lemma replace_in_match (s : string) :
  replaceDollarDigits true s = replaceDollarDigits false (dropDigits s).
Proof.
  induction s as [ | c r IH ]; [ reflexivity | ].
  cbn [replaceDollarDigits dropDigits andb].
  destruct (isDigit c); [ exact IH | reflexivity ].
Qed.

Lemma dollar_char (c : ascii) : (N_of_ascii c =? 36)%N = true -> c = "$"%char.
Proof.
  intros H. apply N.eqb_eq in H.
  rewrite <- (ascii_N_embedding c), H. reflexivity.
Qed.

Lemma toKnexRawQuery_rewritten (n : nat) :
  forall sql, (String.length sql < n)%nat -> rewritten sql (toKnexRawQuery sql).
Proof.
  unfold toKnexRawQuery.
  induction n as [ | n IH ]; intros sql Hn; [ lia | ].
  destruct sql as [ | c r ]; [ constructor | ].
  cbn [String.length] in Hn. cbn [replaceDollarDigits andb].
  destruct ((N_of_ascii c =? 36)%N && headIsDigit r) eqn:Htok.
  - apply andb_prop in Htok. destruct Htok as [Hc Hd].
    rewrite (dollar_char c Hc), replace_in_match.
    rewrite <- (leading_drop r) at 1.
    apply rewritten_token.
    + destruct r as [ | d r' ]; [ discriminate | ].
      cbn in Hd. cbn [leadingDigits]. rewrite Hd. discriminate.
    + apply leading_allDigits.
    + apply drop_no_digit.
    + apply IH. pose proof (drop_length r). lia.
  - apply rewritten_copy; [ exact Htok | ]. apply IH. lia.
Qed.

Lemma mapM_Forall2 {A B : Type} (f : A -> result B) (l : list A) :
  forall out, mapM f l = Ok out <-> Forall2 (fun a b => f a = Ok b) l out.
Proof.
  induction l as [ | a l IH ]; intros out; cbn [mapM].
  - split; intros H.
    + injection H as <-. constructor.
    + inversion H. reflexivity.
  - split; intros H.
    + destruct (f a) as [ b | | ] eqn:Hb; cbn in H; try discriminate.
      destruct (mapM f l) as [ bs | | ] eqn:Hbs; cbn in H; try discriminate.
      injection H as <-. constructor; [ exact Hb | ].
      apply IH. reflexivity.
    + inversion H as [ | a' b l' bs Hb Hbs ]; subst.
      rewrite Hb. cbn. apply IH in Hbs. rewrite Hbs. reflexivity.
Qed.

Lemma castValues_length (values out : list jsval) :
  castValues values = Ok out -> List.length out = List.length values.
Proof.
  intros H. apply mapM_Forall2 in H.
  symmetry. exact (Forall2_length H).
Qed.

(** C1, as amended.  Whenever [_query] hands a statement to the driver:
    its text is the input with every dollar sign and its digits turned
    into one question mark and every other character copied, so it has
    one question mark for every question mark of the input and one for
    every dollar sign followed by digits; the bindings have the length of
    the values, each coming from the value at its position.  So placeholders and parameters agree in
    number when the input has no question mark of its own and as many
    dollar tokens as values. *)
Theorem compiled_query_placeholders
    (query : string) (values : list jsval) (raw : knexRaw)
    (H : _query query values = Ok raw) :
  rewritten query (rawSql raw)
  /\ placeholders (rawSql raw) = (placeholders query + dollarTokens query)%nat
  /\ List.length (rawBindings raw) = List.length values
  /\ Forall2 (fun v b => castValue v = Ok b) values (rawBindings raw)
  /\ (placeholders query = 0%nat ->
      dollarTokens query = List.length values ->
      placeholders (rawSql raw) = List.length (rawBindings raw)).
Proof.
  unfold _query in H.
  destruct (castValues values) as [ bindings | | ] eqn:Hc; cbn in H;
    try discriminate.
  injection H as <-. cbn [rawSql rawBindings].
  pose proof (castValues_length _ _ Hc) as Hlen.
  pose proof (placeholders_replace query false) as Hcount.
  fold (toKnexRawQuery query) in Hcount.
  repeat split.
  - apply (toKnexRawQuery_rewritten (S (String.length query))). lia.
  - exact Hcount.
  - exact Hlen.
  - apply mapM_Forall2. exact Hc.
  - intros Hq Ht. rewrite Hcount, Hq, Ht, Hlen. reflexivity.
Qed.

Lemma compiled_query_placeholders_witness :
  let query := "select * from t where a = $1 and b = $20" in
  let values := [VStr "x"; VStr "[1, 2]"] in
  let raw := mkRaw "select * from t where a = ? and b = ?"
                   [VStr "x"; VArr [VNum 1; VNum 2]] in
  _query query values = Ok raw
  /\ rewritten query (rawSql raw)
  /\ placeholders (rawSql raw) = (placeholders query + dollarTokens query)%nat
  /\ List.length (rawBindings raw) = List.length values
  /\ Forall2 (fun v b => castValue v = Ok b) values (rawBindings raw)
  /\ (placeholders query = 0%nat ->
      dollarTokens query = List.length values ->
      placeholders (rawSql raw) = List.length (rawBindings raw)).
Proof.
  split; [ reflexivity | ].
  apply (compiled_query_placeholders
           "select * from t where a = $1 and b = $20"
           [VStr "x"; VStr "[1, 2]"]).
  reflexivity.
Defined.

(** C1 as stated fails: a statement that uses one parameter twice compiles
    to two placeholders and one binding. *)
Lemma compiled_query_count_counterexample :
  exists raw,
    _query "select $1, $1" [VStr "a"] = Ok raw
    /\ placeholders (rawSql raw) = 2%nat
    /\ List.length (rawBindings raw) = 1%nat.
Proof.
  eexists. split; [ reflexivity | ]. split; reflexivity.
Qed.

(** The same holds of the fragment [buildWhereClause] compiles from the
    criteria parser's output. *)
Lemma buildWhereClause_placeholders
    (Schema Where : Type)
    (parserRead : string -> Schema -> Where -> string * list jsval)
    (cxn : Connection Schema) (tableName : string) (options : Criteria Where)
    (raw : knexRaw) :
  buildWhereClause Schema Where parserRead cxn tableName options = Ok raw ->
  let clause := parserRead tableName (schema Schema cxn) (rest Where options) in
  placeholders (fst clause) = 0%nat ->
  dollarTokens (fst clause) = List.length (snd clause) ->
  placeholders (rawSql raw) = List.length (rawBindings raw).
Proof.
  intros H clause Hq Ht.
  apply (compiled_query_placeholders (fst clause) (snd clause) raw);
    [ exact H | exact Hq | exact Ht ].
Qed.

(** ** Casting of values *)

Lemma bracket_not_whitespace (c : ascii) :
  (N_of_ascii c =? 91)%N = true -> isWhitespace c = false.
Proof.
  intros H. apply N.eqb_eq in H. unfold isWhitespace. rewrite H. reflexivity.
Qed.

Lemma parseValue_bracket (fuel : nat) (c : ascii) (r : string)
    (v : jsval) (rest : string) :
  (N_of_ascii c =? 91)%N = true ->
  parseValue fuel (String c r) = Ok (v, rest) ->
  isArray v = true.
Proof.
  intros Hc H. destruct fuel as [ | f ]; [ discriminate | ].
  cbn [parseValue skipWhitespace] in H.
  rewrite (bracket_not_whitespace c Hc), Hc in H.
  destruct (skipWhitespace r) as [ | c' r' ]; [ discriminate | ].
  destruct (N_of_ascii c' =? 93)%N.
  - injection H as <- _. reflexivity.
  - destruct (parseElements f r []) as [ [l rest'] | | ]; cbn in H;
      try discriminate.
    injection H as <- _. reflexivity.
Qed.

Lemma JSON_parse_bracket (s : string) (v : jsval) :
  startsWithBracket s = true -> JSON_parse s = Ok v -> isArray v = true.
Proof.
  destruct s as [ | c r ]; [ discriminate | ].
  cbn [startsWithBracket]. intros Hc H. unfold JSON_parse in H.
  destruct (parseValue _ (String c r)) as [ [w rest] | | ] eqn:Hp;
    cbn in H; try discriminate.
  destruct (skipWhitespace rest); [ | discriminate ].
  injection H as <-. exact (parseValue_bracket _ _ _ _ _ Hc Hp).
Qed.

Lemma castValue_castOf (value cast : jsval) :
  castValue value = Ok cast <-> castOf value cast.
Proof.
  destruct value as [ | | b | n | s | l | o ]; cbn [castValue castOf];
    try (split; [ intros H; injection H as <-; reflexivity
                | intros ->; reflexivity ]).
  destruct (startsWithBracket s) eqn:Hs.
  - split.
    + intros H.
      destruct (JSON_parse s) as [ arr | | ] eqn:Hp; cbn in H;
        try discriminate.
      pose proof (JSON_parse_bracket s arr Hs Hp) as Harr.
      rewrite Harr in H. injection H as <-. split; [ reflexivity | exact Harr ].
    + intros [Hp Harr]. rewrite Hp. cbn. rewrite Harr. reflexivity.
  - split; [ intros H; injection H as <-; reflexivity | intros ->; reflexivity ].
Qed.

Lemma castValues_app_throw (pre post : list jsval) (out : list jsval)
    (bad : jsval) (e : error) :
  castValues pre = Ok out ->
  castValue bad = Throw e ->
  castValues (pre ++ bad :: post)%list = Throw e.
Proof.
  unfold castValues. revert out.
  induction pre as [ | v pre IH ]; intros out Hpre Hbad.
  - cbn. rewrite Hbad. reflexivity.
  - cbn [app mapM] in *.
    destruct (castValue v) as [ b | | ]; cbn in *; try discriminate.
    destruct (mapM castValue pre) as [ bs | | ] eqn:Hbs; cbn in Hpre;
      try discriminate.
    rewrite (IH bs eq_refl Hbad). reflexivity.
Qed.

(** C9.  [castValues] returns a list exactly when every value has a cast
    in the sense of [castOf], and returns those casts in order: a string
    that begins with an opening bracket becomes the array [JSON.parse]
    gives, every other value is returned as it is.  A string that begins
    with a bracket and is not JSON makes the whole call raise the parser's
    error, wherever it stands among values that cast. *)
Theorem castValues_parses_bracket_strings :
  (forall values out,
      castValues values = Ok out <-> Forall2 castOf values out)
  /\ (forall pre post out,
        castValues pre = Ok out ->
        castValues (pre ++ VStr "[not json" :: post)%list = Throw SyntaxError)
  /\ castValues [VNum 7; VStr "[1, 2]"; VStr "plain"; VNull]
     = Ok [VNum 7; VArr [VNum 1; VNum 2]; VStr "plain"; VNull].
Proof.
  split; [ | split ].
  - intros values out. unfold castValues. rewrite mapM_Forall2.
    split; intros H; induction H; constructor; try assumption;
      apply castValue_castOf; assumption.
  - intros pre post out Hpre.
    apply (castValues_app_throw pre post out); [ exact Hpre | reflexivity ].
  - reflexivity.
Qed.

(** ** Strings *)

Lemma append_nil_r (s : string) : s ++ "" = s.
Proof.
  induction s as [ | c s IH ]; [ reflexivity | ].
  cbn. rewrite IH. reflexivity.
Qed.

Lemma append_assoc (a b c : string) : (a ++ b) ++ c = a ++ (b ++ c).
Proof.
  induction a as [ | x a IH ]; [ reflexivity | ].
  cbn. rewrite IH. reflexivity.
Qed.

(** ** ORDER BY *)

(** C7, as amended.  With no sort field the clause is the constant [1].
    For a sort specification that lodash does not take for an array (its
    [length], if it has one, is not a length), the clause renders every
    field in the order of the specification, joined by a comma and a
    space: the field quoted and qualified by the quoted table name, then a
    space, then nothing for direction [1] and [desc] for any other
    direction. *)
Theorem order_by_clause
    (Where : Type) (tableName : string) (options : Criteria Where)
    (H : isLength (field (VObj (sort Where options)) "length") = None) :
  match sort Where options with
  | [] => buildOrderByClause Where tableName options = "1"
  | _ :: _ =>
      buildOrderByClause Where tableName options
      = joinWith ", "
          (map (fun entry =>
                  dq ++ tableName ++ dq ++ "." ++ dq ++ fst entry ++ dq ++ " "
                  ++ match snd entry with VNum 1 => "" | _ => "desc" end)
               (sort Where options))
  end.
Proof.
  unfold buildOrderByClause.
  destruct (sort Where options) as [ | first more ] eqn:Hsort;
    [ reflexivity | ].
  cbn [entries]. rewrite H, map_map. f_equal.
  apply map_ext. intros [name direction]. unfold orderToken.
  cbn [fst snd keyName].
  destruct direction as [ | | b | n | t | l | o ]; try reflexivity.
  destruct n as [ | q | q ]; try reflexivity.
  destruct q; reflexivity.
Qed.

Lemma order_by_clause_witness :
  let options := mkCriteria unit tt [("name", VNum 1); ("age", VNum (-1))]
                   None None in
  isLength (field (VObj (sort unit options)) "length") = None
  /\ match sort unit options with
     | [] => buildOrderByClause unit "user" options = "1"
     | _ :: _ =>
         buildOrderByClause unit "user" options
         = joinWith ", "
             (map (fun entry =>
                     dq ++ "user" ++ dq ++ "." ++ dq ++ fst entry ++ dq ++ " "
                     ++ match snd entry with VNum 1 => "" | _ => "desc" end)
                  (sort unit options))
     end.
Proof.
  split; [ reflexivity | ].
  apply (order_by_clause unit "user"
           (mkCriteria unit tt [("name", VNum 1); ("age", VNum (-1))]
              None None)).
  reflexivity.
Defined.

(** C7 as stated fails: a sort on the one field [length], ascending, is
    walked by index, and the clause names field [0], descending. *)
Lemma order_by_clause_counterexample :
  buildOrderByClause unit "user"
    (mkCriteria unit tt [("length", VNum 1)] None None)
  = dq ++ "user" ++ dq ++ "." ++ dq ++ "0" ++ dq ++ " desc"
  /\ buildOrderByClause unit "user"
       (mkCriteria unit tt [("length", VNum 1)] None None)
     <> dq ++ "user" ++ dq ++ "." ++ dq ++ "length" ++ dq ++ " ".
Proof.
  split; [ reflexivity | discriminate ].
Qed.

Example order_by_two_fields :
  buildOrderByClause unit "user"
    (mkCriteria unit tt [("name", VNum 1); ("age", VNum (-1))] None None)
  = dq ++ "user" ++ dq ++ "." ++ dq ++ "name" ++ dq ++ " , "
    ++ dq ++ "user" ++ dq ++ "." ++ dq ++ "age" ++ dq ++ " desc".
Proof. reflexivity. Qed.

(** ** The window of an association *)

Lemma orDefault_skip (o : Z) : orDefault (Some o) 0 = o.
Proof.
  unfold orDefault. destruct (Z.eqb_spec o 0) as [-> | _]; reflexivity.
Qed.

Lemma orDefault_given (l d : Z) : l <> 0 -> orDefault (Some l) d = l.
Proof.
  intros Hl. unfold orDefault.
  destruct (Z.eqb_spec l 0) as [E | _]; [ contradiction | reflexivity ].
Qed.

(** C2, as amended.  For an association whose criteria give offset [o] and
    a limit [l] other than zero, the aggregated array is sliced from index
    [o + 1] through index [o + l]. *)
Theorem association_window
    (Where : Type) (empty : Where) (join : Join Where) (c : Criteria Where)
    (o l : Z)
    (Hc : criteria Where join = Some c)
    (Ho : skip Where c = Some o)
    (Hl : limit Where c = Some l)
    (Hnz : l <> 0) :
  sliceStart Where c = o + 1
  /\ sliceEnd Where c = o + l
  /\ aggregationColumn Where empty join
     = nl ++ "        array_to_json(" ++
       nl ++ "          (array_remove(array_agg("
          ++ dq ++ getSubqueryAlias Where join ++ dq ++ ".* order by "
          ++ buildOrderByClause Where (getSubqueryAlias Where join) c
          ++ "), null))[" ++ showZ (o + 1) ++ ":" ++ showZ (o + l) ++ "]" ++
       nl ++ "        ) as " ++ dq ++ getJoinAlias Where join ++ dq ++
       nl ++ "      ".
Proof.
  assert (Hs : sliceStart Where c = o + 1).
  { unfold sliceStart. rewrite Ho, orDefault_skip. reflexivity. }
  assert (He : sliceEnd Where c = o + l).
  { unfold sliceEnd. rewrite Hs, Hl, (orDefault_given l _ Hnz). lia. }
  repeat split; [ exact Hs | exact He | ].
  unfold aggregationColumn, criteriaOf. rewrite Hc, Hs, He. reflexivity.
Qed.

Lemma association_window_witness :
  let c := mkCriteria unit tt [] (Some 2) (Some 0) in
  let join := mkJoin unit "users" "id" "posts" "userId" "posts"
                (VBool false) (VBool false) VUndefined (Some c) in
  (criteria unit join = Some c /\ skip unit c = Some 0
   /\ limit unit c = Some 2 /\ 2 <> 0)
  /\ sliceStart unit c = 0 + 1
  /\ sliceEnd unit c = 0 + 2
  /\ aggregationColumn unit tt join
     = nl ++ "        array_to_json(" ++
       nl ++ "          (array_remove(array_agg("
          ++ dq ++ getSubqueryAlias unit join ++ dq ++ ".* order by "
          ++ buildOrderByClause unit (getSubqueryAlias unit join) c
          ++ "), null))[" ++ showZ (0 + 1) ++ ":" ++ showZ (0 + 2) ++ "]" ++
       nl ++ "        ) as " ++ dq ++ getJoinAlias unit join ++ dq ++
       nl ++ "      ".
Proof.
  split.
  - repeat split. discriminate.
  - apply (association_window unit tt
             (mkJoin unit "users" "id" "posts" "userId" "posts"
                (VBool false) (VBool false) VUndefined
                (Some (mkCriteria unit tt [] (Some 2) (Some 0))))
             (mkCriteria unit tt [] (Some 2) (Some 0)) 0 2);
      [ reflexivity | reflexivity | reflexivity | discriminate ].
Defined.

(** C2 as stated fails: with offset 1 and limit 2 the slice is [2:3],
    and the stated upper bound, offset + limit + offset, is 4. *)
Lemma association_window_counterexample :
  aggregationColumn unit tt
    (mkJoin unit "users" "id" "posts" "userId" "posts"
       (VBool false) (VBool false) VUndefined
       (Some (mkCriteria unit tt [] (Some 2) (Some 1))))
  = nl ++ "        array_to_json(" ++
    nl ++ "          (array_remove(array_agg(" ++ dq ++ "postsposts" ++ dq
       ++ ".* order by 1), null))[2:3]" ++
    nl ++ "        ) as " ++ dq ++ "posts" ++ dq ++
    nl ++ "      "
  /\ sliceStart unit (mkCriteria unit tt [] (Some 2) (Some 1)) = 1 + 1
  /\ sliceEnd unit (mkCriteria unit tt [] (Some 2) (Some 1)) = 3
  /\ sliceEnd unit (mkCriteria unit tt [] (Some 2) (Some 1)) <> 1 + 2 + 1.
Proof.
  repeat split. discriminate.
Qed.

(** Without a limit, or with limit zero, the slice runs to the largest
    integer less one. *)
Lemma association_window_unbounded
    (Where : Type) (c : Criteria Where) :
  limit Where c = None \/ limit Where c = Some 0 ->
  sliceEnd Where c = PG_MAX_INT - 1.
Proof.
  intros [Hl | Hl]; unfold sliceEnd; rewrite Hl; cbn [orDefault Z.eqb]; lia.
Qed.

(** ** The parent alias of a join *)

(** C5, as amended.  The correlation of the subquery compares the child
    key, qualified by the child table, with the parent key, qualified by
    the parent alias.  That alias is the parent table's name for a direct
    association.  Through a junction table it is the parent table's name
    after the association's alias, or after the parent key when
    [removeParentKey] is [true]. *)
Theorem parent_alias_of_join
    (Schema Where : Type)
    (parserRead : string -> Schema -> Where -> string * list jsval)
    (empty : Where) (cxn : Connection Schema) (join : Join Where)
    (sub : subquery)
    (H : buildKnexJoinSubquery Schema Where parserRead empty cxn join = Ok sub) :
  sAndWhereRaw sub
  = dq ++ child Where join ++ dq ++ "." ++ dq ++ childKey Where join ++ dq
    ++ " = "
    ++ dq ++ getParentAlias Where join ++ dq ++ "."
    ++ dq ++ parentKey Where join ++ dq
  /\ getParentAlias Where join
     = if truthy (junctionTable Where join)
       then (if isTrue (removeParentKey Where join)
             then parentKey Where join
             else alias Where join) ++ parent Where join
       else parent Where join.
Proof.
  split.
  - unfold buildKnexJoinSubquery in H.
    destruct (buildWhereClause _ _ _ _ _ _) as [ w | | ]; cbn in H;
      try discriminate.
    injection H as <-. reflexivity.
  - unfold getParentAlias, getJoinAlias.
    destruct (truthy (junctionTable Where join)); [ | reflexivity ].
    destruct (String.eqb_spec (alias Where join) (parentKey Where join))
      as [E | _];
      destruct (isTrue (removeParentKey Where join)); cbn [negb andb];
      try reflexivity.
    rewrite E. reflexivity.
Qed.

Lemma parent_alias_of_join_witness :
  let read := fun (_ : string) (_ _ : unit) => ("1 = $1", [VNum 1]) in
  let cxn := mkConnection unit "default" tt [] in
  let join := mkJoin unit "pet_owners" "owner" "user" "id" "owners"
                (VBool true) (VBool false) VUndefined None in
  let sub := mkSubquery "user" (mkRaw "1 = ?" [VNum 1])
               (dq ++ "user" ++ dq ++ "." ++ dq ++ "id" ++ dq ++ " = "
                ++ dq ++ "ownerspet_owners" ++ dq ++ "."
                ++ dq ++ "owner" ++ dq) in
  buildKnexJoinSubquery unit unit read tt cxn join = Ok sub
  /\ sAndWhereRaw sub
     = dq ++ child unit join ++ dq ++ "." ++ dq ++ childKey unit join ++ dq
       ++ " = "
       ++ dq ++ getParentAlias unit join ++ dq ++ "."
       ++ dq ++ parentKey unit join ++ dq
  /\ getParentAlias unit join
     = if truthy (junctionTable unit join)
       then (if isTrue (removeParentKey unit join)
             then parentKey unit join
             else alias unit join) ++ parent unit join
       else parent unit join.
Proof.
  split; [ reflexivity | ].
  apply (parent_alias_of_join unit unit
           (fun (_ : string) (_ _ : unit) => ("1 = $1", [VNum 1])) tt
           (mkConnection unit "default" tt [])).
  reflexivity.
Defined.

(** C5 as stated fails: through a junction table, with [removeParentKey]
    set and an alias other than the parent key, the parent alias starts
    with the parent key and not with the association's alias. *)
Lemma parent_alias_counterexample :
  getParentAlias unit
    (mkJoin unit "pet_owners" "owner" "user" "id" "owners"
       (VBool true) (VBool true) VUndefined None)
  = "ownerpet_owners"
  /\ alias unit
       (mkJoin unit "pet_owners" "owner" "user" "id" "owners"
          (VBool true) (VBool true) VUndefined None)
     ++ parent unit
       (mkJoin unit "pet_owners" "owner" "user" "id" "owners"
          (VBool true) (VBool true) VUndefined None)
     = "ownerspet_owners"
  /\ "ownerpet_owners" <> "ownerspet_owners".
Proof.
  repeat split. discriminate.
Qed.

(** ** Column types *)

(** C4, as amended.  For an attribute that is auto-increment or whose type
    tag is a string, [toKnexColumn] returns a column.  A tag with a case
    label of its own logs nothing.  Any other tag logs exactly one
    diagnostic, which names the column and the tag, and the column is a
    text column without a text type and without modifiers. *)
Theorem toKnexColumn_unknown_type_is_text
    (_name attrDefinition : jsval) (t : string)
    (H : typeOf attrDefinition = VStr t) :
  exists c,
    toKnexColumn _name attrDefinition = Ok c
    /\ (memString (toLowerCase t) caseLabels = true -> logged c = [])
    /\ (memString (toLowerCase t) caseLabels = false ->
        statement c = TText (nameOf _name attrDefinition) VUndefined
        /\ builder c = Some []
        /\ logged c
           = [[VStr "Unregistered type given for attribute. name=";
               nameOf _name attrDefinition; VStr "; type="; VStr t]]).
Proof.
  unfold toKnexColumn. cbv zeta.
  unfold typeOf, attrOf in H. rewrite H.
  unfold nameOf, attrOf.
  set (tag := toLowerCase t).
  do 33 switch_case.
  cbn [orb]. eexists. split; [ reflexivity | ]. split.
  - intros Hm. cbn [memString caseLabels] in Hm.
    repeat match goal with
           | E : (_ =? _)%string = false |- _ => rewrite E in Hm; clear E
           end.
    discriminate Hm.
  - intros _. repeat split.
Qed.

Lemma toKnexColumn_unknown_type_is_text_witness :
  let _name := VStr "nickname" in
  let attrDefinition := VObj [("type", VStr "made-up-type")] in
  let t := "made-up-type" in
  typeOf attrDefinition = VStr t
  /\ exists c,
       toKnexColumn _name attrDefinition = Ok c
       /\ (memString (toLowerCase t) caseLabels = true -> logged c = [])
       /\ (memString (toLowerCase t) caseLabels = false ->
           statement c = TText (nameOf _name attrDefinition) VUndefined
           /\ builder c = Some []
           /\ logged c
              = [[VStr "Unregistered type given for attribute. name=";
                  nameOf _name attrDefinition; VStr "; type="; VStr t]]).
Proof.
  split; [ reflexivity | ].
  apply (toKnexColumn_unknown_type_is_text
           (VStr "nickname") (VObj [("type", VStr "made-up-type")])
           "made-up-type").
  reflexivity.
Defined.

(** C4 as stated fails: an attribute without a type tag, here the bare
    association [{ model: 'user' }], makes [toKnexColumn] raise. *)
Lemma toKnexColumn_counterexample :
  toKnexColumn (VStr "owner") (VObj [("model", VStr "user")]) = Throw TypeError.
Proof. reflexivity. Qed.

Example made_up_type :
  toKnexColumn (VStr "nickname") (VStr "made-up-type")
  = Ok (mkColumn (TText (VStr "nickname") VUndefined) (Some [])
          [[VStr "Unregistered type given for attribute. name=";
            VStr "nickname"; VStr "; type="; VStr "made-up-type"]]).
Proof. reflexivity. Qed.

(** ** Column constraints *)

Lemma applyEach_falsy (definition : jsval) (col : column)
    (props : list (jsval * jsval)) :
  Forall (fun kv => truthy (snd kv) = false) props ->
  applyEach definition col props = Ok (col, []).
Proof.
  induction 1 as [ | [key value] props Hv _ IH ]; [ reflexivity | ].
  cbn [snd] in Hv. cbn [applyEach].
  assert (Hstep :
    (if keyIs key "defaultsTo" && truthy (field definition "autoIncrement")
        && looseEqAutoIncrement value
     then Ok (col, [])
     else applyParticularColumnConstraint col key value) = Ok (col, [])).
  { destruct (_ && _ && _); [ reflexivity | ].
    unfold applyParticularColumnConstraint. rewrite Hv. reflexivity. }
  rewrite Hstep. cbn. rewrite IH. reflexivity.
Qed.

Lemma field_falsy (properties : list (string * jsval)) (k : string) :
  Forall (fun kv => truthy (snd kv) = false) properties ->
  truthy (field (VObj properties) k) = false.
Proof.
  cbn [field].
  induction 1 as [ | [k' v] properties Hv _ IH ]; [ reflexivity | ].
  cbn [assoc]. destruct (k =? k')%string; [ exact Hv | exact IH ].
Qed.

Lemma entries_falsy (properties : list (string * jsval)) :
  Forall (fun kv => truthy (snd kv) = false) properties ->
  Forall (fun kv => truthy (snd kv) = false) (entries (VObj properties)).
Proof.
  intros Hp. cbn [entries].
  destruct (isLength (field (VObj properties) "length")) as [ n | ].
  - unfold byIndex. apply Forall_forall. intros kv Hin.
    apply in_map_iff in Hin. destruct Hin as [i [<- _]]. cbn [snd].
    apply field_falsy. exact Hp.
  - induction Hp as [ | kv l Hkv _ IH ]; constructor; assumption.
Qed.

(** C10.  A constraint whose value is falsy calls nothing on the column
    and logs nothing, whatever its name.  So an attribute all of whose
    properties are falsy leaves the column as it was, and a default of
    [false], [0], the empty string or [null] is not set, nor is a
    constraint added for [notNull: false] or [unique: false]. *)
Theorem falsy_constraints_do_nothing :
  (forall col constraintName value,
      truthy value = false ->
      applyParticularColumnConstraint col constraintName value = Ok (col, []))
  /\ (forall col properties,
        Forall (fun kv => truthy (snd kv) = false) properties ->
        applyColumnConstraints col (VObj properties) = Ok (col, []))
  /\ (forall col default_,
        In default_ [VBool false; VNum 0; VStr ""; VNull] ->
        applyColumnConstraints col
          (VObj [("type", VStr "string"); ("defaultsTo", default_);
                 ("notNull", VBool false); ("unique", VBool false)])
        = Ok (col, [])).
Proof.
  split; [ | split ].
  - intros col constraintName value Hv.
    unfold applyParticularColumnConstraint. rewrite Hv. reflexivity.
  - intros col properties Hp.
    unfold applyColumnConstraints. cbn [isString].
    apply applyEach_falsy. apply entries_falsy. exact Hp.
  - intros col default_ Hin. cbn in Hin.
    destruct Hin as [<- | [<- | [<- | [<- | []]]]]; reflexivity.
Qed.

Example truthy_constraints_apply :
  applyColumnConstraints (Some [])
    (VObj [("type", VStr "string"); ("defaultsTo", VStr "none");
           ("notNull", VBool true); ("unique", VBool true)])
  = Ok (Some [MDefaultTo (VStr "none"); MNotNullable; MUnique], []).
Proof. reflexivity. Qed.

(** ** Table names *)

Lemma length_substring_0 (n : nat) (s : string) :
  String.length (substring 0 n s) = Nat.min n (String.length s).
Proof.
  revert s. induction n as [ | n IH ]; intros s.
  - destruct s; reflexivity.
  - destruct s as [ | c s ]; [ reflexivity | ].
    cbn [substring String.length Nat.min]. rewrite IH. reflexivity.
Qed.

Lemma truncated_differs (s : string) :
  (63 < String.length s)%nat -> substring 0 63 s <> s.
Proof.
  intros Hlen E.
  pose proof (length_substring_0 63 s) as Hs. rewrite E in Hs. lia.
Qed.

Lemma define_names
    (Schema : Type) (connections : list (string * Connection Schema))
    (connectionName _tableName : string) (definition : jsval)
    (exists_ : bool) (calls : list schemaCall) :
  define Schema connections connectionName _tableName definition exists_
  = Ok calls ->
  Forall (eq (substring 0 63 _tableName)) (sqlNames calls)
  /\ collectionKeys calls = [_tableName].
Proof.
  unfold define. destruct (lookup connectionName connections); [ | discriminate ].
  destruct exists_.
  - intros H. injection H as <-. cbn. repeat constructor.
  - destruct (mapM addColumn (entries definition)); cbn; try discriminate.
    intros H. injection H as <-. cbn. repeat constructor.
Qed.

Lemma addAttribute_names
    (Schema : Type) (connections : list (string * Connection Schema))
    (connectionName tableName : string) (attributeName definition : jsval)
    (calls : list schemaCall) :
  addAttribute Schema connections connectionName tableName attributeName
    definition = Ok calls ->
  sqlNames calls = [tableName] /\ collectionKeys calls = [tableName].
Proof.
  unfold addAttribute.
  destruct (lookup connectionName connections); [ | discriminate ].
  destruct (addColumn (attributeName, definition)); cbn; try discriminate.
  intros H. injection H as <-. split; reflexivity.
Qed.

(** C6.  For a table name of 64 characters, [define] checks and creates
    the table under the first 63 characters and reads the collection under
    the whole name, and [addAttribute] alters the table under the whole
    name: the two operations name different tables. *)
Theorem table_name_truncation_diverges :
  String.length longTableName = 64%nat
  /\ (exists calls,
        define unit [("default", mkConnection unit "default" tt [])]
          "default" longTableName (VObj [("id", VStr "integer")]) false
        = Ok calls
        /\ sqlNames calls
           = [substring 0 63 longTableName; substring 0 63 longTableName]
        /\ collectionKeys calls = [longTableName])
  /\ (exists calls,
        addAttribute unit [("default", mkConnection unit "default" tt [])]
          "default" longTableName (VStr "age") (VStr "integer")
        = Ok calls
        /\ sqlNames calls = [longTableName]
        /\ collectionKeys calls = [longTableName])
  /\ substring 0 63 longTableName <> longTableName.
Proof.
  split; [ reflexivity | ].
  split; [ eexists; split; [ reflexivity | split; reflexivity ] | ].
  split; [ eexists; split; [ reflexivity | split; reflexivity ] | ].
  apply truncated_differs. cbn. lia.
Qed.

(** ** The joined query *)

(** C8.  [buildKnexJoin] raises for every connection, table and criteria:
    it looks the primary key up under the connection's identity, a string,
    where [getPrimaryKey] reads the [collections] of a connection. *)
Theorem buildKnexJoin_throws
    (Schema Where : Type)
    (parserRead : string -> Schema -> Where -> string * list jsval)
    (empty : Where) (cxn : Connection Schema) (tableName : string)
    (options : Options Where) :
  buildKnexJoin Schema Where parserRead empty cxn tableName options
  = Throw TypeError.
Proof. reflexivity. Qed.

(** The bounds the query would carry: the largest integer where no limit
    is given, zero where no offset is given. *)
Lemma default_limit_and_offset :
  orDefault None PG_MAX_INT = 2147483647
  /\ orDefault (Some 0) PG_MAX_INT = 2147483647
  /\ orDefault None 0 = 0
  /\ forall n, n <> 0 -> orDefault (Some n) PG_MAX_INT = n.
Proof.
  repeat split. intros n Hn. apply orDefault_given. exact Hn.
Qed.

(** [Adapter.join] passes the connection itself, and gets the key. *)
Example getPrimaryKey_of_connection :
  getPrimaryKey unit
    (ByConnection unit
       (mkConnection unit "default" tt
          [("user", [("name", VStr "string");
                     ("uid", VObj [("type", VStr "integer");
                                   ("primaryKey", VBool true)])])]))
    "user"
  = Ok (VStr "uid",
        [("user", [("name", VStr "string");
                   ("uid", VObj [("type", VStr "integer");
                                 ("primaryKey", VBool true)]);
                   ("_pk", VStr "uid")])]).
Proof. reflexivity. Qed.

(** ** Nested rows *)

Lemma strictEq_eq (a b : jsval) : strictEq a b = true -> a = b.
Proof.
  destruct a, b; cbn; try discriminate; intros H; try reflexivity.
  - apply Bool.eqb_prop in H. rewrite H. reflexivity.
  - apply Z.eqb_eq in H. rewrite H. reflexivity.
  - apply String.eqb_eq in H. rewrite H. reflexivity.
Qed.

Lemma strictEq_sym (a b : jsval) : strictEq a b = strictEq b a.
Proof.
  destruct a, b; cbn; try reflexivity.
  - destruct b0, b; reflexivity.
  - apply Z.eqb_sym.
  - apply String.eqb_sym.
Qed.

Section Dedupe.

Variable pk : string.
Variable k : jsval.

Let hasKey (x : jsval) : bool := strictEq (field x pk) k.

Lemma baseUniq_after_seen (array seen : list jsval) :
  existsb (strictEq k) seen = true ->
  filter hasKey (baseUniq pk seen array) = [].
Proof.
  revert seen. induction array as [ | x array IH ]; intros seen Hseen;
    [ reflexivity | ].
  cbn [baseUniq].
  destruct (existsb (strictEq (field x pk)) seen) eqn:Hx.
  - apply IH. exact Hseen.
  - cbn [filter]. unfold hasKey at 1.
    destruct (strictEq (field x pk) k) eqn:Hk.
    + apply strictEq_eq in Hk. rewrite Hk, Hseen in Hx. discriminate.
    + apply IH. rewrite existsb_app, Hseen. reflexivity.
Qed.

Lemma baseUniq_first_seen (pre post seen : list jsval) (first : jsval) :
  field first pk = k ->
  strictEq k k = true ->
  existsb (strictEq k) seen = false ->
  (forall x, In x pre -> hasKey x = false) ->
  filter hasKey (baseUniq pk seen (pre ++ first :: post)%list) = [first].
Proof.
  intros Hfirst Hrefl. revert seen.
  induction pre as [ | x pre IH ]; intros seen Hseen Hpre.
  - cbn [app baseUniq]. rewrite Hfirst, Hseen. cbn [filter].
    unfold hasKey at 1. rewrite Hfirst, Hrefl.
    rewrite baseUniq_after_seen; [ reflexivity | ].
    rewrite existsb_app. cbn. rewrite Hrefl.
    apply orb_true_iff. right. reflexivity.
  - cbn [app baseUniq].
    assert (Hx : hasKey x = false) by (apply Hpre; left; reflexivity).
    assert (Hrest : forall y, In y pre -> hasKey y = false)
      by (intros y Hy; apply Hpre; right; exact Hy).
    destruct (existsb (strictEq (field x pk)) seen).
    + apply IH; assumption.
    + cbn [filter]. rewrite Hx. apply IH; [ | exact Hrest ].
      rewrite existsb_app, Hseen. cbn.
      unfold hasKey in Hx. rewrite strictEq_sym, Hx. reflexivity.
Qed.

End Dedupe.

Lemma filter_swap {A : Type} (p q : A -> bool) (l : list A) :
  filter p (filter q l) = filter q (filter p l).
Proof.
  induction l as [ | a l IH ]; [ reflexivity | ].
  cbn [filter].
  destruct (p a) eqn:Hp, (q a) eqn:Hq; cbn [filter];
    rewrite ?Hp, ?Hq, IH; reflexivity.
Qed.

(** What [join] hands to [Util.castResultRows] for a nested array holds
    no [null] and no other falsy entry; and for each key value (a number,
    a string, a boolean), of all the entries that carry it, it holds
    exactly the one that comes first in the array. *)
Lemma kept_rows_first_seen (pk : string) (array : list jsval) :
  Forall (fun x => truthy x = true /\ x <> VNull) (compact (uniqBy array pk))
  /\ (forall pre first post,
        array = (pre ++ first :: post)%list ->
        truthy first = true ->
        strictEq (field first pk) (field first pk) = true ->
        (forall x, In x pre -> strictEq (field x pk) (field first pk) = false) ->
        filter (fun x => strictEq (field x pk) (field first pk))
               (compact (uniqBy array pk))
        = [first]).
Proof.
  split.
  - unfold compact. apply Forall_forall. intros x Hx.
    apply filter_In in Hx. destruct Hx as [_ Hx].
    split; [ exact Hx | ]. intros ->. discriminate Hx.
  - intros pre first post -> Hfirst Hrefl Hpre.
    unfold compact, uniqBy. rewrite filter_swap.
    rewrite (baseUniq_first_seen pk (field first pk) pre post [] first);
      try reflexivity; try assumption.
    cbn [filter]. rewrite Hfirst. reflexivity.
Qed.


Example duplicates_keep_the_first :
  compact
    (uniqBy [VObj [("id", VNum 7); ("title", VStr "first")];
             VNull;
             VObj [("id", VNum 7); ("title", VStr "second")];
             VObj [("id", VNum 8); ("title", VStr "other")];
             VObj [("id", VNum 7); ("title", VStr "third")]] "id")
  = [VObj [("id", VNum 7); ("title", VStr "first")];
     VObj [("id", VNum 8); ("title", VStr "other")]].
Proof. reflexivity. Qed.

(** * Further properties *)

(** ** Rewriting, once more *)

Lemma replace_leaves_no_token (sql : string) :
  forall inMatch,
    dollarTokens (replaceDollarDigits inMatch sql) = 0%nat
    /\ (headIsDigit (replaceDollarDigits inMatch sql) = true ->
        inMatch = false /\ headIsDigit sql = true).
Proof.
  induction sql as [ | c r IH ]; intros inMatch.
  { split; [ reflexivity | discriminate ]. }
  cbn [replaceDollarDigits].
  destruct (inMatch && isDigit c) eqn:Hskip.
  - destruct (IH true) as [Ht Hh]. split; [ exact Ht | ].
    intros Hd. destruct (Hh Hd) as [Hfalse _]. discriminate.
  - destruct ((N_of_ascii c =? 36)%N && headIsDigit r) eqn:Htok.
    + destruct (IH true) as [Ht _]. split.
      * cbn [dollarTokens]. rewrite Ht. reflexivity.
      * cbn. discriminate.
    + destruct (IH false) as [Ht Hh]. split.
      * cbn [dollarTokens]. rewrite Ht.
        destruct (N_of_ascii c =? 36)%N; [ | reflexivity ].
        cbn [andb] in Htok.
        destruct (headIsDigit (replaceDollarDigits false r)) eqn:Hd;
          [ | reflexivity ].
        destruct (Hh eq_refl) as [_ Hr]. rewrite Hr in Htok. discriminate.
      * cbn [headIsDigit]. intros Hc. rewrite Hc in Hskip.
        split; [ | exact Hc ].
        destruct inMatch; [ discriminate | reflexivity ].
Qed.

(** X1.  The rewritten text holds no dollar sign followed by a digit, so
    rewriting it again changes nothing. *)
Theorem toKnexRawQuery_idempotent (sql : string) :
  dollarTokens (toKnexRawQuery sql) = 0%nat
  /\ toKnexRawQuery (toKnexRawQuery sql) = toKnexRawQuery sql.
Proof.
  destruct (replace_leaves_no_token sql false) as [Ht _].
  split; [ exact Ht | ].
  apply replace_without_tokens. exact Ht.
Qed.

Lemma headIsDigit_app (a b : string) :
  headIsDigit b = false -> headIsDigit (a ++ b) = headIsDigit a.
Proof.
  intros Hb. destruct a as [ | c r ]; [ exact Hb | reflexivity ].
Qed.

Lemma replace_after_match (b : string) :
  headIsDigit b = false ->
  replaceDollarDigits true b = replaceDollarDigits false b.
Proof.
  destruct b as [ | c r ]; [ reflexivity | ].
  cbn [headIsDigit replaceDollarDigits andb]. intros ->. reflexivity.
Qed.

Lemma replace_app (a b : string) :
  headIsDigit b = false ->
  forall inMatch,
    replaceDollarDigits inMatch (a ++ b)
    = replaceDollarDigits inMatch a ++ replaceDollarDigits false b.
Proof.
  intros Hb. induction a as [ | c r IH ]; intros inMatch.
  - cbn [append replaceDollarDigits].
    destruct inMatch; [ apply replace_after_match; exact Hb | reflexivity ].
  - cbn [append replaceDollarDigits].
    rewrite (headIsDigit_app r b Hb).
    destruct (inMatch && isDigit c); [ apply IH | ].
    destruct ((N_of_ascii c =? 36)%N && headIsDigit r);
      cbn [append]; rewrite IH; reflexivity.
Qed.

(** X2.  Rewriting goes through a concatenation whose second part does
    not begin with a digit: statements can be rewritten piece by piece. *)
Theorem toKnexRawQuery_app (a b : string) (H : headIsDigit b = false) :
  toKnexRawQuery (a ++ b) = toKnexRawQuery a ++ toKnexRawQuery b.
Proof.
  unfold toKnexRawQuery. apply replace_app. exact H.
Qed.

Lemma toKnexRawQuery_app_witness :
  headIsDigit " and b = $2" = false
  /\ toKnexRawQuery ("a = $1" ++ " and b = $2")
     = toKnexRawQuery "a = $1" ++ toKnexRawQuery " and b = $2".
Proof.
  split; [ reflexivity | ].
  apply (toKnexRawQuery_app "a = $1" " and b = $2"). reflexivity.
Defined.

(** ** Casting, once more *)

Lemma castValue_plain (v : jsval) : bracketString v = false -> castValue v = Ok v.
Proof.
  destruct v; cbn; try reflexivity. intros ->. reflexivity.
Qed.

Lemma castValue_result_plain (v b : jsval) :
  castValue v = Ok b -> bracketString b = false.
Proof.
  intros H. apply castValue_castOf in H.
  destruct v as [ | | x | n | s | l | o ]; cbn in H; try (subst; reflexivity).
  destruct (startsWithBracket s) eqn:Hs.
  - destruct H as [_ Harr]. destruct b; try discriminate. reflexivity.
  - subst. cbn. exact Hs.
Qed.

(** X3.  What [castValues] returns holds no string that begins with a
    bracket, and casting it again returns it unchanged. *)
Theorem castValues_idempotent (values out : list jsval)
    (H : castValues values = Ok out) :
  Forall (fun v => bracketString v = false) out
  /\ castValues out = Ok out.
Proof.
  apply mapM_Forall2 in H.
  assert (Hplain : Forall (fun v => bracketString v = false) out).
  { induction H as [ | v b l bs Hb _ IH ]; constructor;
      [ exact (castValue_result_plain v b Hb) | exact IH ]. }
  split; [ exact Hplain | ].
  apply mapM_Forall2.
  clear H. induction Hplain as [ | b bs Hb _ IH ]; constructor;
    [ apply castValue_plain; exact Hb | exact IH ].
Qed.

Lemma castValues_idempotent_witness :
  castValues [VStr "[1, [2]]"; VStr "x"; VNum 3]
  = Ok [VArr [VNum 1; VArr [VNum 2]]; VStr "x"; VNum 3]
  /\ Forall (fun v => bracketString v = false)
            [VArr [VNum 1; VArr [VNum 2]]; VStr "x"; VNum 3]
  /\ castValues [VArr [VNum 1; VArr [VNum 2]]; VStr "x"; VNum 3]
     = Ok [VArr [VNum 1; VArr [VNum 2]]; VStr "x"; VNum 3].
Proof.
  split; [ reflexivity | ].
  apply (castValues_idempotent [VStr "[1, [2]]"; VStr "x"; VNum 3]).
  reflexivity.
Defined.

(** ** Sanitizing a record *)

Lemma filter_and {A : Type} (f g : A -> bool) (l : list A) :
  filter f (filter g l) = filter (fun x => g x && f x) l.
Proof.
  induction l as [ | a l IH ]; [ reflexivity | ].
  cbn [filter]. destruct (g a); cbn [filter andb]; rewrite IH; reflexivity.
Qed.

Lemma getProp_defined (v : jsval) (k : string) :
  nullish v = false -> getProp v k = Ok (field v k).
Proof.
  destruct v; cbn; try discriminate; reflexivity.
Qed.

Lemma autoIncrementFlag_defined (attributes : list (string * jsval))
    (k : string) :
  nullish (field (VObj attributes) k) = false ->
  autoIncrementFlag attributes k
  = Ok (field (field (VObj attributes) k) "autoIncrement").
Proof.
  unfold autoIncrementFlag. cbn [field].
  destruct (assoc k attributes) as [ definition | ]; [ | discriminate ].
  apply getProp_defined.
Qed.

Lemma sanitizeEach_object (attributes : list (string * jsval))
    (props : list (string * jsval)) :
  Forall (fun kv => nullish (field (VObj attributes) (fst kv)) = false) props ->
  forall o,
    sanitizeEach (Some attributes)
      (map (fun kv => (VStr (fst kv), snd kv)) props) (VObj o)
    = Ok (VObj (filter
                  (fun kv =>
                     negb (existsb
                             (fun p => autoIncrementIn attributes (fst p)
                                       && (fst kv =? fst p)%string)
                             props))
                  o)).
Proof.
  induction 1 as [ | [k v] props Hk _ IH ]; intros o.
  - cbn. f_equal. f_equal. symmetry.
    induction o as [ | kv o IHo ]; [ reflexivity | ].
    cbn. rewrite IHo. reflexivity.
  - cbn [map sanitizeEach fst snd keyName].
    cbn [fst] in Hk. rewrite (autoIncrementFlag_defined _ _ Hk). cbn [bind].
    fold (autoIncrementIn attributes k).
    destruct (autoIncrementIn attributes k) eqn:Hauto.
    + cbn [deleteProp bind]. rewrite IH. unfold removeKey.
      rewrite filter_and. f_equal. f_equal.
      apply filter_ext. intros kv. cbn [existsb fst].
      rewrite Hauto. cbn [andb]. rewrite negb_orb. reflexivity.
    + cbn [bind]. rewrite IH. f_equal. f_equal.
      apply filter_ext. intros kv. cbn [existsb fst].
      rewrite Hauto. reflexivity.
Qed.

(** X4.  On a record that lodash does not take for an array and all of
    whose attributes the schema defines, [sanitize] returns the record
    without the attributes the schema marks as auto-increment; the others
    stay, in their order and with their values. *)
Theorem sanitize_removes_auto_increment
    (attributes data : list (string * jsval))
    (Hplain : isLength (field (VObj data) "length") = None)
    (H : Forall (fun kv => nullish (field (VObj attributes) (fst kv)) = false)
                data) :
  sanitize (VObj data) (Some attributes)
  = Ok (VObj (filter (fun kv => negb (autoIncrementIn attributes (fst kv)))
                     data)).
Proof.
  unfold sanitize. cbn [entries]. rewrite Hplain.
  rewrite (sanitizeEach_object attributes data H). f_equal. f_equal.
  apply filter_ext_in. intros kv Hin. f_equal.
  destruct (autoIncrementIn attributes (fst kv)) eqn:Hauto.
  - apply existsb_exists. exists kv. split; [ exact Hin | ].
    rewrite Hauto, String.eqb_refl. reflexivity.
  - destruct (existsb _ data) eqn:He; [ | reflexivity ].
    apply existsb_exists in He. destruct He as [p [_ Hp]].
    apply andb_prop in Hp. destruct Hp as [Hp Heq].
    apply String.eqb_eq in Heq. rewrite Heq, Hp in Hauto. discriminate.
Qed.

Lemma sanitize_removes_auto_increment_witness :
  let attributes := [("id", VObj [("type", VStr "integer");
                                  ("autoIncrement", VBool true)]);
                     ("name", VStr "string");
                     ("age", VObj [("type", VStr "integer")])] in
  let data := [("name", VStr "Ada"); ("id", VNum 7); ("age", VNum 36)] in
  (isLength (field (VObj data) "length") = None
   /\ Forall (fun kv => nullish (field (VObj attributes) (fst kv)) = false)
             data)
  /\ sanitize (VObj data) (Some attributes)
     = Ok (VObj (filter (fun kv => negb (autoIncrementIn attributes (fst kv)))
                        data)).
Proof.
  assert (Hd : Forall
                 (fun kv =>
                    nullish
                      (field
                         (VObj [("id", VObj [("type", VStr "integer");
                                             ("autoIncrement", VBool true)]);
                                ("name", VStr "string");
                                ("age", VObj [("type", VStr "integer")])])
                         (fst kv)) = false)
                 [("name", VStr "Ada"); ("id", VNum 7); ("age", VNum 36)]).
  { repeat constructor. }
  split; [ split; [ reflexivity | exact Hd ] | ].
  apply sanitize_removes_auto_increment; [ reflexivity | exact Hd ].
Defined.

Example sanitize_drops_the_serial_key :
  sanitize (VObj [("name", VStr "Ada"); ("id", VNum 7); ("age", VNum 36)])
    (Some [("id", VObj [("type", VStr "integer");
                        ("autoIncrement", VBool true)]);
           ("name", VStr "string");
           ("age", VObj [("type", VStr "integer")])])
  = Ok (VObj [("name", VStr "Ada"); ("age", VNum 36)]).
Proof. reflexivity. Qed.

Lemma sanitizeEach_unknown (attributes : list (string * jsval))
    (props : list (string * jsval)) (k : string) :
  In k (map fst props) ->
  assoc k attributes = None ->
  memString k objectPrototype = false ->
  forall o,
    sanitizeEach (Some attributes)
      (map (fun kv => (VStr (fst kv), snd kv)) props) (VObj o)
    = Throw TypeError.
Proof.
  intros Hin Hk Hproto.
  induction props as [ | [k' v] props IH ]; intros o; [ contradiction | ].
  cbn [map sanitizeEach fst snd keyName].
  destruct (autoIncrementFlag attributes k') as [ flag | e | why ] eqn:Hflag.
  - cbn [bind].
    assert (Hrest : In k (map fst props)).
    { destruct Hin as [E | Hin]; [ | exact Hin ].
      cbn in E. subst k'. unfold autoIncrementFlag in Hflag.
      rewrite Hk, Hproto in Hflag. discriminate. }
    destruct (truthy flag); cbn [deleteProp bind]; apply IH; exact Hrest.
  - unfold autoIncrementFlag in Hflag.
    destruct (assoc k' attributes) as [ d | ].
    + destruct d; cbn in Hflag; try discriminate;
        injection Hflag as <-; reflexivity.
    + destruct (memString k' objectPrototype); try discriminate.
      injection Hflag as <-. reflexivity.
  - unfold autoIncrementFlag in Hflag.
    destruct (assoc k' attributes) as [ d | ].
    + destruct d; discriminate.
    + destruct (memString k' objectPrototype); discriminate.
Qed.

(** X5.  [sanitize] raises a [TypeError] when the record, not taken for
    an array, has an attribute that the schema neither defines nor
    inherits, whatever else the record holds.  It takes an array for one
    record with the indices as attributes, so a non-empty array of records
    raises unless the schema defines an attribute [0]; an empty array is
    returned as it is. *)
Theorem sanitize_unknown_attribute (attributes : list (string * jsval)) :
  (forall data k,
      isLength (field (VObj data) "length") = None ->
      In k (map fst data) ->
      assoc k attributes = None ->
      memString k objectPrototype = false ->
      sanitize (VObj data) (Some attributes) = Throw TypeError)
  /\ (forall record records,
        assoc "0" attributes = None ->
        sanitize (VArr (record :: records)) (Some attributes)
        = Throw TypeError)
  /\ sanitize (VArr []) (Some attributes) = Ok (VArr []).
Proof.
  split; [ | split ].
  - intros data k Hplain Hin Hk Hproto. unfold sanitize. cbn [entries].
    rewrite Hplain.
    exact (sanitizeEach_unknown attributes data k Hin Hk Hproto data).
  - intros record records H0. unfold sanitize.
    cbn [entries indexed sanitizeEach keyName].
    change (showZ 0) with "0". unfold autoIncrementFlag. rewrite H0.
    reflexivity.
  - reflexivity.
Qed.

Example sanitize_passes_an_inherited_name :
  sanitize (VObj [("name", VStr "Ada"); ("constructor", VStr "x")])
    (Some [("name", VStr "string")])
  = Ok (VObj [("name", VStr "Ada"); ("constructor", VStr "x")]).
Proof. reflexivity. Qed.

Example sanitize_walks_a_record_with_length_by_index :
  sanitize (VObj [("id", VNum 7); ("length", VNum 0)])
    (Some [("id", VObj [("autoIncrement", VBool true)]);
           ("length", VStr "integer")])
  = Ok (VObj [("id", VNum 7); ("length", VNum 0)]).
Proof. reflexivity. Qed.

(** ** The primary key and its memo *)

Lemma lookup_store {A : Type} (k : string) (a b : A) (m : list (string * A)) :
  lookup k m = Some a -> lookup k (store k b m) = Some b.
Proof.
  induction m as [ | [k' a'] m IH ]; [ discriminate | ].
  cbn [lookup store]. destruct (k =? k')%string eqn:E.
  - intros _. cbn [lookup]. rewrite E. reflexivity.
  - intros H. cbn [lookup]. rewrite E. apply IH. exact H.
Qed.

Lemma lookup_store_other {A : Type} (k other : string) (b : A)
    (m : list (string * A)) :
  other <> k -> lookup other (store k b m) = lookup other m.
Proof.
  intros Hne. induction m as [ | [k' a'] m IH ].
  - cbn. destruct (String.eqb_spec other k); [ contradiction | reflexivity ].
  - cbn [lookup store]. destruct (String.eqb_spec k k') as [E | E].
    + subst k'. cbn [lookup].
      destruct (String.eqb_spec other k); [ contradiction | reflexivity ].
    + cbn [lookup]. rewrite IH. reflexivity.
Qed.

Lemma assoc_setMember (k : string) (v : jsval) (o : list (string * jsval)) :
  assoc k (setMember k v o) = Some v.
Proof.
  induction o as [ | [k' v'] o IH ].
  - cbn. rewrite String.eqb_refl. reflexivity.
  - cbn [setMember]. destruct (k =? k')%string eqn:E;
      cbn [assoc]; rewrite E; [ reflexivity | exact IH ].
Qed.

Lemma assoc_setMember_other (k other : string) (v : jsval)
    (o : list (string * jsval)) :
  other <> k -> assoc other (setMember k v o) = assoc other o.
Proof.
  intros Hne. induction o as [ | [k' v'] o IH ].
  - cbn. destruct (String.eqb_spec other k); [ contradiction | reflexivity ].
  - cbn [setMember]. destruct (String.eqb_spec k k') as [E | E].
    + subst k'. cbn [assoc].
      destruct (String.eqb_spec other k); [ contradiction | reflexivity ].
    + cbn [assoc]. rewrite IH. reflexivity.
Qed.

(** X6.  The key [getPrimaryKey] returns is truthy, and the collections
    it leaves behind remember it: asked again on them, it returns the same
    key and the same collections.  No other table's collection changes. *)
Theorem getPrimaryKey_memo
    (Schema : Type) (cxn : Connection Schema) (tableName : string)
    (pk : jsval) (cs : Collections)
    (H : getPrimaryKey Schema (ByConnection Schema cxn) tableName
         = Ok (pk, cs)) :
  truthy pk = true
  /\ getPrimaryKey Schema
       (ByConnection Schema
          (mkConnection Schema (identity Schema cxn) (schema Schema cxn) cs))
       tableName
     = Ok (pk, cs)
  /\ (forall other, other <> tableName ->
                    lookup other cs = lookup other (collections Schema cxn)).
Proof.
  unfold getPrimaryKey in *. cbn [collectionsOf collections] in *.
  destruct (lookup tableName (collections Schema cxn))
    as [ definition | ] eqn:Hdef; [ | discriminate ].
  destruct (truthy (field (VObj definition) "_pk")) eqn:Hmemo;
    cbn [negb] in H.
  - injection H as <- <-. rewrite Hdef, Hmemo. cbn [negb].
    repeat split. exact Hmemo.
  - destruct (findKey definition) as [ found | e | why ]; cbn [bind] in H;
      try discriminate.
    injection H as <- <-.
    set (key := match found with
                | Some name => jsOr (VStr name) (VStr "id")
                | None => VStr "id"
                end).
    assert (Hkey : truthy key = true).
    { subst key. destruct found as [ name | ]; [ | reflexivity ].
      unfold jsOr. destruct (truthy (VStr name)) eqn:Hn;
        [ exact Hn | reflexivity ]. }
    split; [ exact Hkey | ]. split.
    + rewrite (lookup_store tableName definition _ _ Hdef).
      cbn [field]. rewrite assoc_setMember, Hkey. reflexivity.
    + intros other Hne. apply lookup_store_other. exact Hne.
Qed.

Lemma getPrimaryKey_memo_witness :
  let cxn := mkConnection unit "default" tt
               [("user", [("name", VStr "string");
                          ("uid", VObj [("primaryKey", VBool true)])]);
                ("pet", [("name", VStr "string")])] in
  let cs := [("user", [("name", VStr "string");
                       ("uid", VObj [("primaryKey", VBool true)]);
                       ("_pk", VStr "uid")]);
             ("pet", [("name", VStr "string")])] in
  getPrimaryKey unit (ByConnection unit cxn) "user" = Ok (VStr "uid", cs)
  /\ truthy (VStr "uid") = true
  /\ getPrimaryKey unit
       (ByConnection unit
          (mkConnection unit (identity unit cxn) (schema unit cxn) cs))
       "user"
     = Ok (VStr "uid", cs)
  /\ (forall other, other <> "user" ->
                    lookup other cs = lookup other (collections unit cxn)).
Proof.
  split; [ reflexivity | ].
  apply (getPrimaryKey_memo unit
           (mkConnection unit "default" tt
              [("user", [("name", VStr "string");
                         ("uid", VObj [("primaryKey", VBool true)])]);
               ("pet", [("name", VStr "string")])])
           "user").
  reflexivity.
Defined.

Lemma findKey_first (pre post : list (string * jsval)) (name : string)
    (attr : jsval) :
  Forall (fun kv => nullish (snd kv) = false
                    /\ isTrue (field (snd kv) "primaryKey") = false) pre ->
  nullish attr = false ->
  isTrue (field attr "primaryKey") = true ->
  findKey (pre ++ (name, attr) :: post)%list = Ok (Some name).
Proof.
  intros Hpre Hattr Hflag.
  induction Hpre as [ | [k v] pre [Hv Hk] _ IH ].
  - cbn [app findKey]. rewrite (getProp_defined _ _ Hattr). cbn [bind].
    rewrite Hflag. reflexivity.
  - cbn [app findKey]. cbn [snd] in Hv, Hk.
    rewrite (getProp_defined _ _ Hv). cbn [bind]. rewrite Hk. exact IH.
Qed.

Lemma findKey_none (definition : list (string * jsval)) :
  Forall (fun kv => nullish (snd kv) = false
                    /\ isTrue (field (snd kv) "primaryKey") = false)
         definition ->
  findKey definition = Ok None.
Proof.
  induction 1 as [ | [k v] definition [Hv Hk] _ IH ]; [ reflexivity | ].
  cbn [findKey]. cbn [snd] in Hv, Hk.
  rewrite (getProp_defined _ _ Hv). cbn [bind]. rewrite Hk. exact IH.
Qed.

(** X7.  Where no key is remembered yet, [getPrimaryKey] returns the name
    of the first attribute whose [primaryKey] is [true], whatever later
    attributes say, and remembers it; where no attribute says so, it
    returns [id]. *)
Theorem getPrimaryKey_first_flagged
    (Schema : Type) (cxn : Connection Schema) (tableName : string) :
  (forall pre post name attr,
      lookup tableName (collections Schema cxn)
      = Some (pre ++ (name, attr) :: post)%list ->
      truthy (field (VObj (pre ++ (name, attr) :: post)%list) "_pk") = false ->
      Forall (fun kv => nullish (snd kv) = false
                        /\ isTrue (field (snd kv) "primaryKey") = false) pre ->
      nullish attr = false ->
      isTrue (field attr "primaryKey") = true ->
      name <> "" ->
      getPrimaryKey Schema (ByConnection Schema cxn) tableName
      = Ok (VStr name,
            store tableName
              (setMember "_pk" (VStr name) (pre ++ (name, attr) :: post)%list)
              (collections Schema cxn)))
  /\ (forall definition,
        lookup tableName (collections Schema cxn) = Some definition ->
        truthy (field (VObj definition) "_pk") = false ->
        Forall (fun kv => nullish (snd kv) = false
                          /\ isTrue (field (snd kv) "primaryKey") = false)
               definition ->
        getPrimaryKey Schema (ByConnection Schema cxn) tableName
        = Ok (VStr "id",
              store tableName (setMember "_pk" (VStr "id") definition)
                (collections Schema cxn))).
Proof.
  split.
  - intros pre post name attr Hdef Hmemo Hpre Hattr Hflag Hname.
    unfold getPrimaryKey. cbn [collectionsOf]. rewrite Hdef, Hmemo.
    cbn [negb]. rewrite (findKey_first pre post name attr Hpre Hattr Hflag).
    cbn [bind].
    assert (Hor : jsOr (VStr name) (VStr "id") = VStr name).
    { unfold jsOr. cbn [truthy].
      destruct (String.eqb_spec name ""); [ contradiction | reflexivity ]. }
    rewrite Hor. reflexivity.
  - intros definition Hdef Hmemo Hnone.
    unfold getPrimaryKey. cbn [collectionsOf]. rewrite Hdef, Hmemo.
    cbn [negb]. rewrite (findKey_none definition Hnone). reflexivity.
Qed.

Example getPrimaryKey_composite :
  getPrimaryKey unit
    (ByConnection unit
       (mkConnection unit "default" tt
          [("membership",
            [("user", VObj [("type", VStr "integer");
                            ("primaryKey", VBool true)]);
             ("group", VObj [("type", VStr "integer");
                             ("primaryKey", VBool true)])])]))
    "membership"
  = Ok (VStr "user",
        [("membership",
          [("user", VObj [("type", VStr "integer");
                          ("primaryKey", VBool true)]);
           ("group", VObj [("type", VStr "integer");
                           ("primaryKey", VBool true)]);
           ("_pk", VStr "user")])]).
Proof. reflexivity. Qed.

(** ** Columns and their constraints, once more *)

Lemma applyParticular_appends (ms : list modifier) (key value : jsval) :
  exists added log,
    applyParticularColumnConstraint (Some ms) key value
    = Ok (Some (ms ++ added)%list, log)
    /\ (List.length added + List.length log <= 1)%nat
    /\ (forall m, In m added ->
                  m = MDefaultTo value -> keyIs key "defaultsTo" = true).
Proof.
  unfold applyParticularColumnConstraint.
  destruct (negb (truthy value)).
  { exists [], []. rewrite app_nil_r. repeat split; [ cbn; lia | contradiction ]. }
  destruct (keyIs key "index").
  { eexists [_], []. repeat split; [ cbn; lia | ].
    intros m [<- | []] E. discriminate E. }
  destruct (keyIs key "unique").
  { eexists [_], []. repeat split; [ cbn; lia | ].
    intros m [<- | []] E. discriminate E. }
  destruct (keyIs key "notNull").
  { eexists [_], []. repeat split; [ cbn; lia | ].
    intros m [<- | []] E. discriminate E. }
  destruct (keyIs key "defaultsTo").
  { eexists [_], []. repeat split. cbn; lia. }
  destruct (_ || _).
  { exists [], []. rewrite app_nil_r. repeat split; [ cbn; lia | contradiction ]. }
  exists [], [[VStr "Unknown constraint ["; key; VStr "] on column"]].
  rewrite app_nil_r. repeat split; [ cbn; lia | contradiction ].
Qed.

Lemma applyEach_appends (definition : jsval) (props : list (jsval * jsval)) :
  forall ms,
  exists added log,
    applyEach definition (Some ms) props = Ok (Some (ms ++ added)%list, log)
    /\ (List.length added + List.length log <= List.length props)%nat
    /\ (truthy (field definition "autoIncrement") = true ->
        forallb plainModifier ms = true ->
        forallb plainModifier (ms ++ added)%list = true).
Proof.
  induction props as [ | [key value] props IH ]; intros ms.
  { exists [], []. rewrite app_nil_r. repeat split; [ cbn; lia | auto ]. }
  cbn [applyEach].
  destruct (keyIs key "defaultsTo" && truthy (field definition "autoIncrement")
            && looseEqAutoIncrement value) eqn:Hskip.
  - cbn [bind]. destruct (IH ms) as [added [log [Heq [Hlen Hplain]]]].
    exists added, log. rewrite Heq. cbn [bind].
    repeat split; [ cbn [List.length]; lia | exact Hplain ].
  - destruct (applyParticular_appends ms key value)
      as [a1 [l1 [Heq1 [Hlen1 Hdef1]]]].
    rewrite Heq1. cbn [bind].
    destruct (IH (ms ++ a1)%list) as [a2 [l2 [Heq2 [Hlen2 Hplain2]]]].
    rewrite Heq2. cbn [bind].
    exists (a1 ++ a2)%list, (l1 ++ l2)%list.
    rewrite app_assoc. repeat split.
    + rewrite !length_app. cbn [List.length]. lia.
    + intros Hauto Hms. rewrite <- app_assoc. rewrite app_assoc.
      apply (Hplain2 Hauto).
      rewrite forallb_app, Hms. cbn [andb].
      apply forallb_forall. intros m Hm.
      destruct m as [ i t | | | v ]; try reflexivity.
      cbn [plainModifier].
      destruct a1 as [ | m1 [ | m2 a1 ] ];
        [ contradiction | | cbn in Hlen1; lia ].
      destruct Hm as [E | []]. subst m1.
      assert (Hv : v = value).
      { unfold applyParticularColumnConstraint in Heq1.
        destruct (negb (truthy value)).
        { injection Heq1 as E _. apply (f_equal (@List.length _)) in E.
          rewrite length_app in E. cbn in E. lia. }
        destruct (keyIs key "index").
        { injection Heq1 as E _. apply app_inv_head in E. discriminate E. }
        destruct (keyIs key "unique").
        { injection Heq1 as E _. apply app_inv_head in E. discriminate E. }
        destruct (keyIs key "notNull").
        { injection Heq1 as E _. apply app_inv_head in E. discriminate E. }
        destruct (keyIs key "defaultsTo").
        { injection Heq1 as E _. apply app_inv_head in E.
          injection E as E. symmetry. exact E. }
        destruct (_ || _); injection Heq1 as E _;
          apply (f_equal (@List.length _)) in E;
          rewrite length_app in E; cbn in E; lia. }
      subst v.
      pose proof (Hdef1 (MDefaultTo value) (or_introl eq_refl) eq_refl) as Hk.
      rewrite Hk, Hauto in Hskip. cbn [andb] in Hskip.
      rewrite Hskip. reflexivity.
Qed.


(** X9.  An attribute object marked auto-increment becomes a [serial]
    column whatever type it declares, and the column never gets the
    auto-increment marker as its default. *)
Theorem addColumn_auto_increment
    (attributeName : jsval) (properties : list (string * jsval))
    (H : truthy (field (VObj properties) "autoIncrement") = true) :
  exists c modifiers,
    addColumn (attributeName, VObj properties) = Ok c
    /\ tableStatement c
       = TSpecificType (nameOf attributeName (VObj properties)) "serial"
    /\ constrained c = Some modifiers
    /\ forallb plainModifier modifiers = true.
Proof.
  assert (Hcol : toKnexColumn attributeName (VObj properties)
                 = Ok (made (TSpecificType
                               (nameOf attributeName (VObj properties))
                               "serial"))).
  { unfold toKnexColumn. cbv zeta. cbn [isObject]. rewrite H. reflexivity. }
  unfold addColumn. rewrite Hcol. cbn [bind made builder statement logged].
  unfold applyColumnConstraints. cbn [isString].
  destruct (applyEach_appends (VObj properties) (entries (VObj properties)) [])
    as [added [log [Heq [_ Hplain]]]].
  rewrite Heq. cbn [bind app].
  eexists. exists added. repeat split.
  exact (Hplain H eq_refl).
Qed.

Lemma addColumn_auto_increment_witness :
  let properties := [("type", VStr "bigint"); ("autoIncrement", VBool true);
                     ("defaultsTo", VStr "AUTO_INCREMENT");
                     ("unique", VBool true)] in
  truthy (field (VObj properties) "autoIncrement") = true
  /\ exists c modifiers,
       addColumn (VStr "id", VObj properties) = Ok c
       /\ tableStatement c
          = TSpecificType (nameOf (VStr "id") (VObj properties)) "serial"
       /\ constrained c = Some modifiers
       /\ forallb plainModifier modifiers = true.
Proof.
  split; [ reflexivity | ].
  apply (addColumn_auto_increment (VStr "id")
           [("type", VStr "bigint"); ("autoIncrement", VBool true);
            ("defaultsTo", VStr "AUTO_INCREMENT"); ("unique", VBool true)]).
  reflexivity.
Defined.

(** X10.  Whenever the type tag is a string, the column is made under the
    attribute's [columnName] when that is truthy and under the attribute's
    own name otherwise; only a table comment, which makes no column, has
    no name. *)
Theorem toKnexColumn_name
    (_name attrDefinition : jsval) (t : string)
    (H : typeOf attrDefinition = VStr t) :
  exists c,
    toKnexColumn _name attrDefinition = Ok c
    /\ (calledName (statement c) = Some (nameOf _name attrDefinition)
        \/ (toLowerCase t = "comment"
            /\ statement c = TComment (field (attrOf attrDefinition) "comment")
            /\ builder c = None)).
Proof.
  unfold toKnexColumn. cbv zeta.
  unfold typeOf, attrOf in H. rewrite H.
  unfold nameOf, attrOf.
  set (tag := toLowerCase t).
  do 33 switch_named.
  cbn [orb]. eexists. split; [ reflexivity | left; reflexivity ].
Qed.

Lemma toKnexColumn_name_witness :
  let attrDefinition := VObj [("type", VStr "Integer");
                              ("columnName", VStr "user_age")] in
  typeOf attrDefinition = VStr "Integer"
  /\ exists c,
       toKnexColumn (VStr "age") attrDefinition = Ok c
       /\ (calledName (statement c)
           = Some (nameOf (VStr "age") attrDefinition)
           \/ (toLowerCase "Integer" = "comment"
               /\ statement c
                  = TComment (field (attrOf attrDefinition) "comment")
               /\ builder c = None)).
Proof.
  split; [ reflexivity | ].
  apply (toKnexColumn_name (VStr "age")
           (VObj [("type", VStr "Integer"); ("columnName", VStr "user_age")])
           "Integer").
  reflexivity.
Defined.

Lemma lowerChar_idempotent (c : ascii) : lowerChar (lowerChar c) = lowerChar c.
Proof.
  destruct c as [b0 b1 b2 b3 b4 b5 b6 b7].
  destruct b0, b1, b2, b3, b4, b5, b6, b7; reflexivity.
Qed.

Lemma toLowerCase_idempotent (s : string) :
  toLowerCase (toLowerCase s) = toLowerCase s.
Proof.
  induction s as [ | c r IH ]; [ reflexivity | ].
  cbn [toLowerCase]. rewrite lowerChar_idempotent, IH. reflexivity.
Qed.

(** X11.  Type tags are read without regard to case: where the tag's
    lower-case form is a label whose column does not carry the tag itself,
    the attribute gives the same column as with the lower-case tag.  The
    shorthand, a bare tag, is the attribute that has only a type. *)
Theorem toKnexColumn_ignores_case
    (_name : jsval) (t : string) (others : list (string * jsval))
    (H : memString (toLowerCase t) fixedLabels = true) :
  toKnexColumn _name (VObj (("type", VStr t) :: others))
  = toKnexColumn _name (VObj (("type", VStr (toLowerCase t)) :: others))
  /\ toKnexColumn _name (VStr t)
     = toKnexColumn _name (VObj [("type", VStr (toLowerCase t))]).
Proof.
  unfold toKnexColumn. cbv zeta. cbn [isObject field assoc String.eqb Ascii.eqb Bool.eqb].
  cbn [truthy].
  rewrite toLowerCase_idempotent.
  cbn [memString fixedLabels] in H.
  split.
  - destruct (truthy match assoc "autoIncrement" others with
                     | Some x => x
                     | None => VUndefined
                     end); [ reflexivity | ].
    repeat (apply orb_true_iff in H; destruct H as [H | H]);
      try discriminate H;
      apply String.eqb_eq in H; rewrite H; reflexivity.
  - repeat (apply orb_true_iff in H; destruct H as [H | H]);
      try discriminate H;
      apply String.eqb_eq in H; rewrite H; reflexivity.
Qed.

Lemma toKnexColumn_ignores_case_witness :
  memString (toLowerCase "DateTime") fixedLabels = true
  /\ toKnexColumn (VStr "born")
       (VObj (("type", VStr "DateTime") :: [("standard", VBool true)]))
     = toKnexColumn (VStr "born")
         (VObj (("type", VStr (toLowerCase "DateTime"))
                  :: [("standard", VBool true)]))
  /\ toKnexColumn (VStr "born") (VStr "DateTime")
     = toKnexColumn (VStr "born")
         (VObj [("type", VStr (toLowerCase "DateTime"))]).
Proof.
  split; [ reflexivity | ].
  apply (toKnexColumn_ignores_case (VStr "born") "DateTime"
           [("standard", VBool true)]).
  reflexivity.
Defined.

(** ** Schema statements, once more *)

Lemma substring_all (n : nat) :
  forall s, (String.length s <= n)%nat -> substring 0 n s = s.
Proof.
  induction n as [ | n IH ]; intros s Hs.
  - destruct s; [ reflexivity | cbn in Hs; lia ].
  - destruct s as [ | c s ]; [ reflexivity | ].
    cbn [substring]. cbn [String.length] in Hs. rewrite IH by lia. reflexivity.
Qed.

(** X12.  For a table name of at most 63 characters, [define] and
    [addAttribute] put the same name, the one they were given, into every
    statement. *)
Theorem short_table_names_agree
    (Schema : Type) (connections : list (string * Connection Schema))
    (connectionName tableName : string)
    (definition attributeName attribute : jsval) (exists_ : bool)
    (defined added : list schemaCall)
    (Hlen : (String.length tableName <= 63)%nat)
    (Hdefine : define Schema connections connectionName tableName definition
                 exists_ = Ok defined)
    (Hadd : addAttribute Schema connections connectionName tableName
              attributeName attribute = Ok added) :
  Forall (eq tableName) (sqlNames defined ++ sqlNames added)%list
  /\ collectionKeys defined = collectionKeys added.
Proof.
  destruct (define_names _ _ _ _ _ _ _ Hdefine) as [Hd Hk].
  destruct (addAttribute_names _ _ _ _ _ _ _ Hadd) as [Ha Hk'].
  rewrite (substring_all 63 tableName Hlen) in Hd.
  split.
  - apply Forall_app. split; [ exact Hd | ].
    rewrite Ha. constructor; [ reflexivity | constructor ].
  - rewrite Hk, Hk'. reflexivity.
Qed.

Lemma short_table_names_agree_witness :
  let connections := [("default", mkConnection unit "default" tt [])] in
  let defined := [CollectionsGet "user"; HasTable "user";
                  CreateTable "user"
                    [mkStatement (VStr "id") (TInteger (VStr "id"))
                       (Some []) []] []] in
  let added := [CollectionsGet "user";
                AlterTable "user"
                  [mkStatement (VStr "age") (TInteger (VStr "age"))
                     (Some []) []]] in
  ((String.length "user" <= 63)%nat
   /\ define unit connections "default" "user"
        (VObj [("id", VStr "integer")]) false = Ok defined
   /\ addAttribute unit connections "default" "user" (VStr "age")
        (VStr "integer") = Ok added)
  /\ Forall (eq "user") (sqlNames defined ++ sqlNames added)%list
  /\ collectionKeys defined = collectionKeys added.
Proof.
  split.
  - split; [ cbn; lia | split; reflexivity ].
  - apply (short_table_names_agree unit
             [("default", mkConnection unit "default" tt [])]
             "default" "user" (VObj [("id", VStr "integer")])
             (VStr "age") (VStr "integer") false);
      [ cbn; lia | reflexivity | reflexivity ].
Defined.






Example define_stops_at_an_untyped_attribute :
  define unit [("default", mkConnection unit "default" tt [])] "default"
    "pet"
    (VObj [("name", VStr "string"); ("owner", VObj [("model", VStr "user")])])
    false
  = Throw TypeError.
Proof. reflexivity. Qed.

(** ** Nested rows, once more *)

Lemma existsb_snoc_false (k kx : jsval) (seen : list jsval) :
  existsb (strictEq k) (seen ++ [kx])%list = false ->
  existsb (strictEq k) seen = false /\ strictEq k kx = false.
Proof.
  rewrite existsb_app. cbn [existsb]. rewrite orb_false_r.
  intros H. apply orb_false_elim in H. exact H.
Qed.

Lemma baseUniq_distinct (pk : string) (array : list jsval) :
  forall seen,
    ForallOrdPairs (differentKeys pk) (baseUniq pk seen array)
    /\ Forall (fun x => existsb (strictEq (field x pk)) seen = false)
              (baseUniq pk seen array).
Proof.
  induction array as [ | x array IH ]; intros seen.
  { split; constructor. }
  cbn [baseUniq].
  destruct (existsb (strictEq (field x pk)) seen) eqn:Hx; [ apply IH | ].
  destruct (IH (seen ++ [field x pk])%list) as [Hpairs Hseen].
  split.
  - constructor; [ | exact Hpairs ].
    apply Forall_forall. intros y Hy.
    rewrite Forall_forall in Hseen. specialize (Hseen y Hy).
    apply existsb_snoc_false in Hseen. destruct Hseen as [_ Hxy].
    unfold differentKeys. rewrite strictEq_sym. exact Hxy.
  - constructor; [ exact Hx | ].
    apply Forall_forall. intros y Hy.
    rewrite Forall_forall in Hseen. specialize (Hseen y Hy).
    apply existsb_snoc_false in Hseen. exact (proj1 Hseen).
Qed.

Lemma baseUniq_fixed (pk : string) (array : list jsval) :
  forall seen,
    ForallOrdPairs (differentKeys pk) array ->
    Forall (fun x => existsb (strictEq (field x pk)) seen = false) array ->
    baseUniq pk seen array = array.
Proof.
  induction array as [ | x array IH ]; intros seen Hpairs Hseen;
    [ reflexivity | ].
  inversion Hpairs as [ | a l Hx Hrest ]; subst.
  inversion Hseen as [ | a l Hsx Hsrest ]; subst.
  cbn [baseUniq]. rewrite Hsx. f_equal. apply IH; [ exact Hrest | ].
  apply Forall_forall. intros y Hy.
  rewrite Forall_forall in Hx, Hsrest.
  rewrite existsb_app, (Hsrest y Hy). cbn [existsb orb].
  rewrite strictEq_sym, (Hx y Hy). reflexivity.
Qed.

Lemma ForallOrdPairs_filter {A : Type} (R : A -> A -> Prop) (p : A -> bool)
    (l : list A) :
  ForallOrdPairs R l -> ForallOrdPairs R (filter p l).
Proof.
  induction 1 as [ | a l Ha _ IH ]; [ constructor | ].
  cbn [filter]. destruct (p a); [ | exact IH ].
  constructor; [ | exact IH ].
  apply Forall_forall. intros y Hy. apply filter_In in Hy.
  rewrite Forall_forall in Ha. apply Ha. exact (proj1 Hy).
Qed.

Lemma filter_idempotent {A : Type} (p : A -> bool) (l : list A) :
  filter p (filter p l) = filter p l.
Proof.
  induction l as [ | a l IH ]; [ reflexivity | ].
  cbn [filter]. destruct (p a) eqn:Hp; [ | exact IH ].
  cbn [filter]. rewrite Hp, IH. reflexivity.
Qed.

(** X14.  In what [join] keeps of an association array, no two entries
    carry the same key, and cleaning it again changes nothing. *)
Theorem nested_rows_have_distinct_keys (pk : string) (array : list jsval) :
  ForallOrdPairs (differentKeys pk) (compact (uniqBy array pk))
  /\ compact (uniqBy (compact (uniqBy array pk)) pk)
     = compact (uniqBy array pk).
Proof.
  assert (Hkept : ForallOrdPairs (differentKeys pk) (compact (uniqBy array pk))).
  { unfold compact, uniqBy. apply ForallOrdPairs_filter.
    exact (proj1 (baseUniq_distinct pk array [])). }
  split; [ exact Hkept | ].
  unfold uniqBy at 1.
  rewrite (baseUniq_fixed pk _ [] Hkept).
  - unfold compact. apply filter_idempotent.
  - apply Forall_forall. intros x _. reflexivity.
Qed.

(** ** Aliases across two joins *)

(** X16.  For a join through a junction table that starts where an
    earlier join ended (its parent is that join's child) under the same
    resolved alias, the correlation of its subquery names the alias of the
    earlier join's lateral subquery. *)
Theorem junction_correlates_with_previous_join
    (Schema Where : Type)
    (parserRead : string -> Schema -> Where -> string * list jsval)
    (empty : Where) (cxn : Connection Schema) (first second : Join Where)
    (sub : subquery)
    (Hjunction : truthy (junctionTable Where second) = true)
    (Hparent : parent Where second = child Where first)
    (Halias : getJoinAlias Where second = getJoinAlias Where first)
    (Hsub : buildKnexJoinSubquery Schema Where parserRead empty cxn second
            = Ok sub) :
  getParentAlias Where second = getSubqueryAlias Where first
  /\ sAndWhereRaw sub
     = dq ++ child Where second ++ dq ++ "." ++ dq ++ childKey Where second
       ++ dq ++ " = "
       ++ dq ++ getSubqueryAlias Where first ++ dq ++ "."
       ++ dq ++ parentKey Where second ++ dq.
Proof.
  assert (Hpa : getParentAlias Where second = getSubqueryAlias Where first).
  { unfold getParentAlias, getSubqueryAlias.
    rewrite Hjunction, Hparent, Halias. reflexivity. }
  split; [ exact Hpa | ].
  unfold buildKnexJoinSubquery in Hsub.
  destruct (buildWhereClause _ _ _ _ _ _) as [ w | | ]; cbn [bind] in Hsub;
    try discriminate.
  injection Hsub as <-. cbn [sAndWhereRaw]. rewrite Hpa. reflexivity.
Qed.

Lemma junction_correlates_with_previous_join_witness :
  let read := fun (_ : string) (_ _ : unit) => ("", @nil jsval) in
  let cxn := mkConnection unit "default" tt [] in
  let first := mkJoin unit "user" "id" "pet_owners" "owner" "pets"
                 (VBool false) (VBool false) (VBool false) None in
  let second := mkJoin unit "pet_owners" "pet" "pet" "id" "pets"
                  (VBool true) (VBool false) VUndefined None in
  let sub := mkSubquery "pet" (mkRaw "" [])
               (dq ++ "pet" ++ dq ++ "." ++ dq ++ "id" ++ dq ++ " = "
                ++ dq ++ "petspet_owners" ++ dq ++ "."
                ++ dq ++ "pet" ++ dq) in
  (truthy (junctionTable unit second) = true
   /\ parent unit second = child unit first
   /\ getJoinAlias unit second = getJoinAlias unit first
   /\ buildKnexJoinSubquery unit unit read tt cxn second = Ok sub)
  /\ getParentAlias unit second = getSubqueryAlias unit first
  /\ sAndWhereRaw sub
     = dq ++ child unit second ++ dq ++ "." ++ dq ++ childKey unit second
       ++ dq ++ " = "
       ++ dq ++ getSubqueryAlias unit first ++ dq ++ "."
       ++ dq ++ parentKey unit second ++ dq.
Proof.
  split.
  - repeat split.
  - apply (junction_correlates_with_previous_join unit unit
             (fun (_ : string) (_ _ : unit) => ("", @nil jsval)) tt
             (mkConnection unit "default" tt []));
      reflexivity.
Defined.

(** ** The size of the window *)

(** X17.  With a limit other than zero the slice of an association holds
    exactly that many positions, whether or not an offset is given.  With
    no limit, or limit zero, it ends at 2147483646 whatever the offset,
    so every position skipped is one position less. *)
Theorem association_window_size (Where : Type) (c : Criteria Where) :
  (forall l, limit Where c = Some l -> l <> 0 ->
             sliceEnd Where c - sliceStart Where c + 1 = l)
  /\ (limit Where c = None \/ limit Where c = Some 0 ->
      sliceEnd Where c = 2147483646
      /\ sliceEnd Where c - sliceStart Where c + 1
         = 2147483646 - orDefault (skip Where c) 0).
Proof.
  split.
  - intros l Hl Hnz. unfold sliceEnd. rewrite Hl, (orDefault_given l _ Hnz).
    lia.
  - intros Hl.
    assert (He : sliceEnd Where c = 2147483646).
    { unfold sliceEnd.
      destruct Hl as [Hl | Hl]; rewrite Hl; cbn [orDefault Z.eqb];
        unfold PG_MAX_INT; lia. }
    split; [ exact He | ]. rewrite He. unfold sliceStart. lia.
Qed.

(** ** Operations under way *)

(** X18.  Once an operation's key is removed, no entry with that key is
    left, not even one an earlier operation added under the same key; the
    entries under other keys stay as they were, and where the key was new
    the list is what it was before the operation began. *)
Theorem pool_add_del (pool : list string) (key : string) :
  ~ In key (del key (add key pool))
  /\ (forall other, other <> key ->
                    count_occ string_dec (del key (add key pool)) other
                    = count_occ string_dec pool other)
  /\ (~ In key pool -> del key (add key pool) = pool).
Proof.
  unfold del, add. split; [ | split ].
  - intros Hin. apply filter_In in Hin. destruct Hin as [_ Hne].
    rewrite String.eqb_refl in Hne. discriminate.
  - intros other Hne. rewrite filter_app. cbn [filter].
    rewrite String.eqb_refl. cbn [negb]. rewrite app_nil_r.
    induction pool as [ | e pool IH ]; [ reflexivity | ].
    cbn [filter count_occ].
    destruct (String.eqb_spec e key) as [E | E]; cbn [negb].
    + subst e. destruct (string_dec key other) as [E' | _];
        [ symmetry in E'; contradiction | exact IH ].
    + cbn [count_occ]. destruct (string_dec e other); rewrite IH; reflexivity.
  - intros Hnew. rewrite filter_app. cbn [filter].
    rewrite String.eqb_refl. cbn [negb]. rewrite app_nil_r.
    induction pool as [ | e pool IH ]; [ reflexivity | ].
    cbn [filter].
    destruct (String.eqb_spec e key) as [E | E]; cbn [negb].
    + exfalso. apply Hnew. left. exact E.
    + rewrite IH; [ reflexivity | ].
      intros Hin. apply Hnew. right. exact Hin.
Qed.

(** ** Tearing connections down *)

Lemma lookup_registryDelete (Schema : Type) (name other : string)
    (connections : Registry Schema) :
  lookup other (registryDelete Schema name connections)
  = if (other =? name)%string then None else lookup other connections.
Proof.
  unfold registryDelete.
  induction connections as [ | [k c] connections IH ].
  - cbn. destruct (other =? name)%string; reflexivity.
  - cbn [filter fst]. destruct (String.eqb_spec k name) as [E | E]; cbn [negb].
    + rewrite IH. cbn [lookup].
      destruct (String.eqb_spec other name) as [E' | E']; [ reflexivity | ].
      destruct (String.eqb_spec other k) as [E'' | _]; [ | reflexivity ].
      subst. contradiction.
    + cbn [lookup]. rewrite IH.
      destruct (String.eqb_spec other k) as [E' | _]; [ | reflexivity ].
      subst other.
      destruct (String.eqb_spec k name); [ contradiction | reflexivity ].
Qed.

(** X19.  Torn down by name, a registered connection has its pool
    destroyed and, once that resolved, is no longer registered, while
    every other connection stays.  Torn down all at once (no name given),
    every pool is destroyed and yet every connection stays registered: the
    loop that deletes runs over the iterator the loop that destroys has
    used up.  A name that is not registered destroys and removes nothing,
    and nothing is removed either when a pool fails to close. *)
Theorem teardown_registry
    (Schema : Type) (connections : Registry Schema) :
  (forall name cxn,
      name <> "" ->
      lookup name connections = Some cxn ->
      identity Schema cxn = name ->
      fst (teardown Schema connections (VStr name) true) = [name]
      /\ forall other,
           lookup other (snd (teardown Schema connections (VStr name) true))
           = if (other =? name)%string then None
             else lookup other connections)
  /\ (forall conn,
        truthy conn = false ->
        teardown Schema connections conn true
        = (map (fun entry => identity Schema (snd entry)) connections,
           connections))
  /\ (forall conn,
        truthy conn = true ->
        registryGet Schema connections conn = None ->
        teardown Schema connections conn true = ([], connections))
  /\ (forall conn, snd (teardown Schema connections conn false) = connections).
Proof.
  split; [ | split; [ | split ] ].
  - intros name cxn Hname Hget Hid. unfold teardown.
    assert (Ht : truthy (VStr name) = true).
    { cbn. destruct (String.eqb_spec name ""); [ contradiction | reflexivity ]. }
    rewrite Ht. cbn [forOf registryGet]. rewrite Hget.
    cbn [flat_map fold_left fst snd app]. rewrite Hid.
    split; [ reflexivity | ].
    intros other. apply lookup_registryDelete.
  - intros conn Hfalsy. unfold teardown. rewrite Hfalsy. cbn [forOf fold_left].
    f_equal. induction connections as [ | [k c] connections IH ];
      [ reflexivity | ].
    cbn [map flat_map snd app]. rewrite IH. reflexivity.
  - intros conn Htruthy Hnone. unfold teardown. rewrite Htruthy.
    cbn [forOf]. rewrite Hnone. reflexivity.
  - intros conn. unfold teardown.
    destruct (truthy conn); cbn [forOf]; reflexivity.
Qed.

Example teardown_of_all_keeps_the_registry :
  teardown unit
    [("a", mkConnection unit "a" tt []); ("b", mkConnection unit "b" tt [])]
    VUndefined true
  = (["a"; "b"],
     [("a", mkConnection unit "a" tt []); ("b", mkConnection unit "b" tt [])]).
Proof. reflexivity. Qed.
